(** * Schema validation for BigQuery ingestion: a shallow embedding

    The development follows [schema_val.py] (the stand-alone validator) and
    [df_bq_ingest.py] (the same validator as Beam [DoFn]s).  Python values
    are a tagged union, exceptions are an explicit result type, and the
    interpreter's library routines the validator relies on ([int], [float],
    [str], [re.match], [datetime.strptime], [datetime.fromisoformat]) are
    written out as executable functions following CPython 3.11.

    Conventions of the model:
    - text is a sequence of code points below 256 ([String.string]);
    - integers are unbounded ([Z]); converting between [int] and [str]
      is limited to 4300 digits, the interpreter's default;
    - floats are [spec_float] mantissa/exponent pairs; their textual form
      and the textual form of composite values are parameters, and may
      raise;
    - [ast.literal_eval] and the local time-zone names known to [strptime]
      are parameters of the definitions that use them. *)

From stdpp Require Import base option list strings gmap fin_maps.
From stdpp Require Import pretty.
From Stdlib Require Import ZArith Lia Ascii.
From Stdlib Require Import Floats.SpecFloat.

Local Open Scope Z_scope.

(** ** Python values, exceptions and results *)

#[warnings="-register-all"]
Inductive value : Type :=
  | VNone
  | VBool (b : bool)
  | VInt (n : Z)
  | VFloat (f : spec_float)
  | VStr (s : string)
  | VBytes (s : string)
  | VList (l : list value)
  | VTuple (l : list value)
  | VSet (l : list value)
  | VDict (l : list (value * value)).

(** What a [SchemaValidationException] reports: the three messages of
    [validate_data], with the values interpolated into each. *)
Inductive violation : Type :=
  | RowLengthMismatch
  | RequiredFieldMissing (field_name : string)
  | CannotConvert (field_name : string) (v : value) (field_type : string).

Inductive exn : Type :=
  | ValueError
  | TypeError
  | SyntaxError
  | OverflowError
  | MemoryError
  | RecursionError
  | AttributeError
  | KeyError
  | SchemaValidationException (why : violation).

Inductive result (A : Type) : Type :=
  | Return (a : A)
  | Raise (e : exn).
Arguments Return {A} a.
Arguments Raise {A} e.

#[global] Instance result_ret : MRet result := fun A a => Return a.
#[global] Instance result_bind : MBind result := fun A B f m =>
  match m with
  | Return a => f a
  | Raise e => Raise e
  end.

(** [try: body except (ValueError, TypeError): handler] *)
Definition is_ValueError_or_TypeError (e : exn) : bool :=
  match e with ValueError | TypeError => true | _ => false end.

Definition is_ValueError (e : exn) : bool :=
  match e with ValueError => true | _ => false end.

(** [SyntaxError] also stands for its subclass [IndentationError]. *)
Definition is_ValueError_or_SyntaxError (e : exn) : bool :=
  match e with ValueError | SyntaxError => true | _ => false end.

Definition try_except {A} (body : result A) (catches : exn -> bool)
    (handler : result A) : result A :=
  match body with
  | Return a => Return a
  | Raise e => if catches e then handler else Raise e
  end.

Definition is_None (v : value) : bool :=
  match v with VNone => true | _ => false end.

(** ** The schema *)

(** A field descriptor is the dictionary [{"name": .., "type": .., "mode": ..}];
    ["mode"] may be absent ([field.get('mode', 'NULLABLE')]). *)
Record field : Type := Field {
  name : string;
  type : string;
  mode : option string
}.

Definition get_mode (f : field) : string := default "NULLABLE" (mode f).

(** ** [validate_data]

    The loop of [validate_data] is shared by the two files; it differs only
    in the [validate_type] it calls.  The loop is instrumented with a log of
    the field checks it performs: [Inspected] is recorded on entry to the
    body of the inner loop, [Coerced] on each call of [validate_type].

    The message of the cannot-convert exception is an f-string that holds
    [{value}]: the value is formatted, which can itself raise, before the
    exception is made.  [format_value] is that formatting. *)

Inductive probe : Type :=
  | Inspected (v : value) (f : field)
  | Coerced (v : value) (field_type : string).

Section Validate.
Variable format_value : value -> result string.
Variable validate_type : value -> string -> result bool.

(** The body of [for value, field in zip(row, schema)]. *)
Definition check_field (v : value) (f : field) : list probe * result unit :=
  let field_name := name f in
  let field_type := type f in
  let field_mode := get_mode f in
  if String.eqb field_mode "REQUIRED" && is_None v then
    ([Inspected v f],
     Raise (SchemaValidationException (RequiredFieldMissing field_name)))
  else if negb (is_None v) then
    ([Inspected v f; Coerced v field_type],
     match validate_type v field_type with
     | Return true => Return ()
     | Return false =>
         _ ← format_value v;
         Raise (SchemaValidationException (CannotConvert field_name v field_type))
     | Raise e => Raise e
     end)
  else ([Inspected v f], Return ()).

(** [for value, field in zip(row, schema)]: stops at the shorter list,
    and at the first exception. *)
Fixpoint check_fields (row : list value) (schema : list field)
    : list probe * result unit :=
  match row, schema with
  | v :: row', f :: schema' =>
      match check_field v f with
      | (log, Return _) =>
          let (log', r) := check_fields row' schema' in (log ++ log', r)
      | (log, Raise e) => (log, Raise e)
      end
  | _, _ => ([], Return ())
  end.

(** The body of [for row in data]. *)
Definition validate_row (row : list value) (schema : list field)
    : list probe * result unit :=
  if negb (length row =? length schema)%nat then
    ([], Raise (SchemaValidationException RowLengthMismatch))
  else check_fields row schema.

Fixpoint validate_rows (data : list (list value)) (schema : list field)
    : list probe * result unit :=
  match data with
  | [] => ([], Return ())
  | row :: data' =>
      match validate_row row schema with
      | (log, Return _) =>
          let (log', r) := validate_rows data' schema in (log ++ log', r)
      | (log, Raise e) => (log, Raise e)
      end
  end.
End Validate.

(** ** Text *)

Definition code (c : ascii) : N := N_of_ascii c.

Definition in_range (lo hi : N) (c : ascii) : bool :=
  ((lo <=? code c) && (code c <=? hi))%N.

(** Decimal digits; below 256 the Unicode class [Nd] is ['0'..'9']. *)
Definition is_digit (c : ascii) : bool := in_range 48 57 c.

Definition digit_value (c : ascii) : Z := Z.of_N (code c) - 48.

(** C [isspace]: what [int] and [float] skip around an ASCII text. *)
Definition is_ascii_space (c : ascii) : bool :=
  in_range 9 13 c || (code c =? 32)%N.

(** The white space [int] and [float] skip around a [str]: code points
    above 127 that are Unicode spaces are first turned into [' ']. *)
Definition is_text_space (c : ascii) : bool :=
  is_ascii_space c || (code c =? 133)%N || (code c =? 160)%N.

(** [str.isspace], which is also the regular expression class [\s]. *)
Definition is_space (c : ascii) : bool :=
  is_text_space c || in_range 28 31 c.

Definition lower_char (c : ascii) : ascii :=
  if in_range 65 90 c || (in_range 192 222 c && negb (code c =? 215)%N)
  then ascii_of_N (code c + 32) else c.

(** [s.lower()] *)
Fixpoint lower (s : string) : string :=
  match s with
  | EmptyString => EmptyString
  | String c s' => String (lower_char c) (lower s')
  end.

Fixpoint lstrip (space : ascii -> bool) (s : string) : string :=
  match s with
  | String c s' => if space c then lstrip space s' else s
  | EmptyString => EmptyString
  end.

Fixpoint rstrip (space : ascii -> bool) (s : string) : string :=
  match s with
  | String c s' =>
      match rstrip space s' with
      | EmptyString => if space c then EmptyString else String c EmptyString
      | r => String c r
      end
  | EmptyString => EmptyString
  end.

Definition strip (space : ascii -> bool) (s : string) : string :=
  rstrip space (lstrip space s).

(** [s.replace(old, new)] for a one-character [old]. *)
Fixpoint replace_char (old : ascii) (new : string) (s : string) : string :=
  match s with
  | EmptyString => EmptyString
  | String c s' =>
      if Ascii.eqb c old then new +:+ replace_char old new s'
      else String c (replace_char old new s')
  end.

(** [x in [...]] for a list of string constants *)
Definition str_in (x : string) (l : list string) : bool :=
  existsb (String.eqb x) l.

(** ** Numeric conversions *)

(** Digits with single underscores between them, as [int] and [float]
    accept ("1_000"); [after_digit] tells whether the previous character
    was a digit.  Returns the value of the digits read (most significant
    first, continuing from [acc]) and the rest of the text. *)
Fixpoint digits_loop (after_digit : bool) (acc : Z) (s : string)
    : option (Z * string) :=
  match s with
  | String c s' =>
      if is_digit c then digits_loop true (10 * acc + digit_value c) s'
      else if Ascii.eqb c "_" then
        if after_digit then
          match s' with
          | String d _ => if is_digit d then digits_loop false acc s' else None
          | EmptyString => None
          end
        else None
      else if after_digit then Some (acc, s) else None
  | EmptyString => if after_digit then Some (acc, s) else None
  end.

(** One or more digits (underscores allowed between them). *)
Definition digits (s : string) : option (Z * string) :=
  match s with
  | String c _ => if is_digit c then digits_loop false 0 s else None
  | EmptyString => None
  end.

(** An optional sign. *)
Definition sign (s : string) : bool * string :=
  match s with
  | String "-" s' => (true, s')
  | String "+" s' => (false, s')
  | _ => (false, s)
  end.

(** [sys.get_int_max_str_digits()], at its default: an integer of more
    digits is converted neither from text nor to text. *)
Definition int_max_str_digits : nat := 4300.

(** The number of digits in a text; signs and underscores do not count. *)
Fixpoint count_digits (s : string) : nat :=
  match s with
  | String c s' => ((if is_digit c then 1 else 0) + count_digits s')%nat
  | EmptyString => 0%nat
  end.

(** [int(s)] in base 10 once the surrounding white space is gone: the
    text of an integer is refused when it has too many digits. *)
Definition int_literal (s : string) : option Z :=
  let (neg, s1) := sign s in
  match digits s1 with
  | Some (n, EmptyString) =>
      if (int_max_str_digits <? count_digits s1)%nat then None
      else Some (if neg then - n else n)
  | _ => None
  end.

(** [int(float)]: truncation towards zero. *)
Definition trunc_float (f : spec_float) : result Z :=
  match f with
  | S754_zero _ => Return 0
  | S754_infinity _ => Raise OverflowError
  | S754_nan => Raise ValueError
  | S754_finite neg m e =>
      let n := match e with
               | Z.neg p => Z.pos m / 2 ^ Z.pos p
               | _ => Z.pos m * 2 ^ e
               end in
      Return (if neg then - n else n)
  end.

(** [int(value)] *)
Definition int (v : value) : result Z :=
  match v with
  | VInt n => Return n
  | VBool b => Return (if b then 1 else 0)
  | VFloat f => trunc_float f
  | VStr s =>
      match int_literal (strip is_text_space s) with
      | Some n => Return n
      | None => Raise ValueError
      end
  | VBytes s =>
      match int_literal (strip is_ascii_space s) with
      | Some n => Return n
      | None => Raise ValueError
      end
  | _ => Raise TypeError
  end.

(** The exponent of a float literal, or nothing. *)
Definition exponent (s : string) : bool :=
  match s with
  | EmptyString => true
  | String c s' =>
      if Ascii.eqb (lower_char c) "e" then
        match digits (snd (sign s')) with
        | Some (_, EmptyString) => true
        | _ => false
        end
      else false
  end.

(** The text [float] accepts once the surrounding white space is gone. *)
Definition float_literal (s : string) : bool :=
  let s1 := snd (sign s) in
  if str_in (lower s1) ["inf"; "infinity"; "nan"] then true
  else
    match s1 with
    | String "." s2 =>
        match digits s2 with
        | Some (_, r) => exponent r
        | None => false
        end
    | _ =>
        match digits s1 with
        | Some (_, String "." r) =>
            match digits r with
            | Some (_, r') => exponent r'
            | None => exponent r
            end
        | Some (_, r) => exponent r
        | None => false
        end
    end.

(** [float(value)]; only its outcome matters to the validator, which
    discards the number.  An [int] beyond the largest double (after rounding
    to nearest) does not convert. *)
Definition float (v : value) : result unit :=
  match v with
  | VInt n =>
      if Z.abs n <? 2 ^ 1024 - 2 ^ 970 then Return () else Raise OverflowError
  | VBool _ | VFloat _ => Return ()
  | VStr s =>
      if float_literal (strip is_text_space s) then Return ()
      else Raise ValueError
  | VBytes s =>
      if float_literal (strip is_ascii_space s) then Return ()
      else Raise ValueError
  | _ => Raise TypeError
  end.

(** ** The interpreter's environment

    What the validator's result depends on but the program does not fix:
    the textual form of floats, byte strings and composite values (or the
    exception raised while making it: [ValueError] for a list that holds an
    integer of too many digits, [RecursionError] for one nested too deep),
    and the names of the local time zone ([time.tzname], [time.daylight]). *)
Record interpreter : Type := Interpreter {
  text_of : value -> result string;
  tzname : string * string;
  daylight : bool
}.

(** [10 ** 4300], the least integer of more digits than the limit. *)
Definition int_str_bound : Z := Eval vm_compute in 10 ^ 4300.

Section Str.
Variable py : interpreter.

(** [str(value)], which is also the text of [{value}] in an f-string.  An
    integer of more than [int_max_str_digits] digits has no text. *)
Definition str (v : value) : result string :=
  match v with
  | VNone => Return "None"
  | VBool true => Return "True"
  | VBool false => Return "False"
  | VInt n =>
      if Z.abs n <? int_str_bound then Return (pretty n) else Raise ValueError
  | VStr s => Return s
  | _ => text_of py v
  end.
End Str.

(** ** Regular expressions

    The part of [re] the validator and [strptime] use: character classes,
    sequence, ordered alternatives, greedy bounded repetition of a class,
    greedy optional groups, named groups and the end anchor.  Matching
    backtracks in the order [re] does, so that the first match found is the
    one [re.match] reports. *)

Inductive regex : Type :=
  | Eps
  | Chr (p : ascii -> bool)
  | Seq (r1 r2 : regex)
  | Alt (r1 r2 : regex)
  | Rep (p : ascii -> bool) (lo : nat) (hi : option nat)
  | Opt (r : regex)
  | Group (g : string) (r : regex)
  | Eol.

Definition captures : Type := list (string * string).

(** The text between two positions of one string, the second given by
    what is left to read there. *)
Definition consumed (s rest : string) : string :=
  String.substring 0 (String.length s - String.length rest) s.

(** Greedy [p{lo,hi}]: as many as allowed first, then fewer. *)
Fixpoint repeat_class {A} (p : ascii -> bool) (lo : nat) (hi : option nat)
    (s : string) (k : string -> option A) : option A :=
  let stop := match lo with O => k s | S _ => None end in
  match s with
  | String c s' =>
      if p c && negb (bool_decide (hi = Some O)) then
        match repeat_class p (pred lo) (pred <$> hi) s' k with
        | Some a => Some a
        | None => stop
        end
      else stop
  | EmptyString => stop
  end.

Fixpoint exec {A} (r : regex) (s : string) (caps : captures)
    (k : string -> captures -> option A) : option A :=
  match r with
  | Eps => k s caps
  | Chr p =>
      match s with
      | String c s' => if p c then k s' caps else None
      | EmptyString => None
      end
  | Seq r1 r2 => exec r1 s caps (fun s' caps' => exec r2 s' caps' k)
  | Alt r1 r2 =>
      match exec r1 s caps k with
      | Some a => Some a
      | None => exec r2 s caps k
      end
  | Rep p lo hi => repeat_class p lo hi s (fun s' => k s' caps)
  | Opt r1 =>
      match exec r1 s caps k with
      | Some a => Some a
      | None => k s caps
      end
  | Group g r1 =>
      exec r1 s caps (fun s' caps' => k s' ((g, consumed s s') :: caps'))
  | Eol =>
      match s with
      | EmptyString => k s caps
      | String c EmptyString => if (code c =? 10)%N then k s caps else None
      | _ => None
      end
  end.

(** [re.match]: the first match at the start of the text, reported as what
    it captured and what it left unread. *)
Definition match_prefix (r : regex) (s : string) : option (captures * string) :=
  exec r s [] (fun rest caps => Some (caps, rest)).

(** [re.match(pattern, value)] *)
Definition re_match (r : regex) (v : value) : result (option (captures * string)) :=
  match v with
  | VStr s => Return (match_prefix r s)
  | _ => Raise TypeError
  end.

Definition chr (c : ascii) : regex := Chr (Ascii.eqb c).
Definition chr_ignorecase (c : ascii) : regex :=
  Chr (fun x => Ascii.eqb (lower_char x) (lower_char c)).
Definition between (lo hi : ascii) : regex := Chr (in_range (code lo) (code hi)).
Definition digit : regex := Chr is_digit.
Definition exactly (n : nat) (p : ascii -> bool) : regex := Rep p n (Some n).

Fixpoint seq (rs : list regex) : regex :=
  match rs with
  | [] => Eps
  | [r] => r
  | r :: rs' => Seq r (seq rs')
  end.

Fixpoint alt (r : regex) (rs : list regex) : regex :=
  match rs with
  | [] => r
  | r' :: rs' => Alt r (alt r' rs')
  end.

(** A literal word, compared without regard to case. *)
Fixpoint word_ignorecase (w : string) : regex :=
  match w with
  | EmptyString => Eps
  | String c EmptyString => chr_ignorecase c
  | String c w' => Seq (chr_ignorecase c) (word_ignorecase w')
  end.

(** The pattern of [validate_type]'s TIMESTAMP branch:
    [^\d{4}-\d{2}-\d{2}T\d{2}:\d{2}:\d{2}(?:\.\d+)?(?:Z|[+-]\d{2}:\d{2})?$] *)
Definition iso_pattern : regex :=
  seq [exactly 4 is_digit; chr "-"; exactly 2 is_digit; chr "-";
       exactly 2 is_digit; chr "T"; exactly 2 is_digit; chr ":";
       exactly 2 is_digit; chr ":"; exactly 2 is_digit;
       Opt (Seq (chr ".") (Rep is_digit 1 None));
       Opt (Alt (chr "Z")
                (seq [Chr (fun c => Ascii.eqb c "+" || Ascii.eqb c "-");
                      exactly 2 is_digit;
                      chr ":"; exactly 2 is_digit]));
       Eol].

(** ** Dates and times *)

Record datetime : Type := Datetime {
  year : Z; month : Z; day : Z;
  hour : Z; minute : Z; second : Z; microsecond : Z
}.

Definition is_leap (y : Z) : bool :=
  (y mod 4 =? 0) && (negb (y mod 100 =? 0) || (y mod 400 =? 0)).

Definition days_in_month (y m : Z) : Z :=
  if m =? 2 then (if is_leap y then 29 else 28)
  else if (m =? 4) || (m =? 6) || (m =? 9) || (m =? 11) then 30
  else 31.

Definition valid_date (y m d : Z) : bool :=
  (1 <=? y) && (y <=? 9999) && (1 <=? m) && (m <=? 12) &&
  (1 <=? d) && (d <=? days_in_month y m).

Definition valid_time (H M S us : Z) : bool :=
  (0 <=? H) && (H <=? 23) && (0 <=? M) && (M <=? 59) &&
  (0 <=? S) && (S <=? 59) && (0 <=? us) && (us <=? 999999).

(** The constructor [datetime(year, month, day, hour, minute, second, us)]. *)
Definition new_datetime (y m d H M S us : Z) : result datetime :=
  if valid_date y m d && valid_time H M S us
  then Return (Datetime y m d H M S us)
  else Raise ValueError.

(** The value of a named group, read by [int]; [dflt] when the pattern has
    no such group. *)
Definition group (caps : captures) (g : string) : option string :=
  snd <$> find (fun c => String.eqb (fst c) g) caps.

Definition group_int (caps : captures) (g : string) (dflt : Z) : result Z :=
  match group caps g with
  | Some text => int (VStr text)
  | None => Return dflt
  end.

(** The first six digits of a fraction of a second, as microseconds. *)
Fixpoint micros (n : nat) (s : string) : Z :=
  match n with
  | O => 0
  | S n' =>
      match s with
      | String c s' => digit_value c * 10 ^ Z.of_nat n' + micros n' s'
      | EmptyString => 0
      end
  end.

Definition group_micros (caps : captures) (g : string) : Z :=
  match group caps g with
  | Some text => micros 6 text
  | None => 0
  end.

(** [sorted(words, key=len, reverse=True)] *)
Fixpoint insert_by_length (w : string) (ws : list string) : list string :=
  match ws with
  | [] => [w]
  | w' :: ws' =>
      if (String.length w' <=? String.length w)%nat then w :: ws
      else w' :: insert_by_length w ws'
  end.

Definition longest_first (ws : list string) : list string :=
  foldr insert_by_length [] ws.

(** The expressions of the directives, from [_strptime.TimeRE]. *)
Definition year_re : regex := Group "Y" (seq [digit; digit; digit; digit]).
Definition month_re : regex :=
  Group "m" (alt (Seq (chr "1") (between "0" "2"))
                 [Seq (chr "0") (between "1" "9"); between "1" "9"]).
Definition day_re : regex :=
  Group "d" (alt (Seq (chr "3") (between "0" "1"))
                 [Seq (between "1" "2") digit;
                  Seq (chr "0") (between "1" "9");
                  between "1" "9";
                  Seq (chr " ") (between "1" "9")]).
Definition hour_re : regex :=
  Group "H" (alt (Seq (chr "2") (between "0" "3"))
                 [Seq (between "0" "1") digit; digit]).
Definition minute_re : regex :=
  Group "M" (alt (Seq (between "0" "5") digit) [digit]).
Definition second_re : regex :=
  Group "S" (alt (Seq (chr "6") (between "0" "1"))
                 [Seq (between "0" "5") digit; digit]).
Definition fraction_re : regex := Group "f" (Rep is_digit 1 (Some 6%nat)).

(** The alternatives of [%Z]: the given names, in that order. *)
Definition zone_re (names : list string) : regex :=
  Group "Z" (match word_ignorecase <$> names with
             | [] => Eps
             | r :: rs => alt r rs
             end).

Section Strptime.
Variable py : interpreter.

(** The zone names [%Z] knows: "utc", "gmt" and the local names, in
    lower case, the longest first. *)
Definition zone_names : list string :=
  let known := remove_dups ["utc"; "gmt"; lower (fst (tzname py))] ++
               (if daylight py then [lower (snd (tzname py))] else []) in
  longest_first known.

(** The expression of each directive, for the directives the validator's
    formats use and for [%%]; [None] for any other character. *)
Definition directive (c : ascii) : option regex :=
  if Ascii.eqb c "Y" then Some year_re
  else if Ascii.eqb c "m" then Some month_re
  else if Ascii.eqb c "d" then Some day_re
  else if Ascii.eqb c "H" then Some hour_re
  else if Ascii.eqb c "M" then Some minute_re
  else if Ascii.eqb c "S" then Some second_re
  else if Ascii.eqb c "f" then Some fraction_re
  else if Ascii.eqb c "Z" then Some (zone_re zone_names)
  else if Ascii.eqb c "%" then Some (chr "%")
  else None.

(** [TimeRE.pattern]: a run of white space in the format stands for
    [\s+], a directive for its expression, any other character for itself
    (the expression is compiled with [IGNORECASE]). *)
Fixpoint pattern (in_space : bool) (fmt : string) : option regex :=
  match fmt with
  | EmptyString => Some Eps
  | String c fmt' =>
      if is_space c then
        if in_space then pattern true fmt'
        else Seq (Rep is_space 1 None) <$> pattern true fmt'
      else if Ascii.eqb c "%" then
        match fmt' with
        | String d fmt'' =>
            r ← directive d; Seq r <$> pattern false fmt''
        | EmptyString => None
        end
      else Seq (chr_ignorecase c) <$> pattern false fmt'
  end.

(** [datetime.strptime(value, fmt)] *)
Definition strptime (v : value) (fmt : string) : result datetime :=
  match v with
  | VStr data_string =>
      match pattern false fmt with
      | None => Raise ValueError
      | Some format_regex =>
          match match_prefix format_regex data_string with
          | Some (found, EmptyString) =>
              y ← group_int found "Y" 1900;
              m ← group_int found "m" 1;
              d ← group_int found "d" 1;
              H ← group_int found "H" 0;
              M ← group_int found "M" 0;
              S ← group_int found "S" 0;
              new_datetime y m d H M S (group_micros found "f")
          | _ => Raise ValueError
          end
      end
  | _ => Raise TypeError
  end.
End Strptime.

(** [datetime.fromisoformat] on the extended format with a ['T'] and
    seconds, [YYYY-MM-DDTHH:MM:SS[.f+][+HH:MM]], which is the only shape the
    pattern of the TIMESTAMP branch lets through to it.  The zone offset
    must stay strictly within a day. *)
Definition iso_extended : regex :=
  seq [Group "Y" (exactly 4 is_digit); chr "-"; Group "m" (exactly 2 is_digit);
       chr "-"; Group "d" (exactly 2 is_digit); chr "T";
       Group "H" (exactly 2 is_digit); chr ":"; Group "M" (exactly 2 is_digit);
       chr ":"; Group "S" (exactly 2 is_digit);
       Opt (Seq (chr ".") (Group "f" (Rep is_digit 1 None)));
       Opt (seq [Chr (fun c => Ascii.eqb c "+" || Ascii.eqb c "-");
                 Group "zH" (exactly 2 is_digit); chr ":";
                 Group "zM" (exactly 2 is_digit)])].

Definition fromisoformat (v : value) : result datetime :=
  match v with
  | VStr date_string =>
      match match_prefix iso_extended date_string with
      | Some (found, EmptyString) =>
          y ← group_int found "Y" 0;
          m ← group_int found "m" 0;
          d ← group_int found "d" 0;
          H ← group_int found "H" 0;
          M ← group_int found "M" 0;
          S ← group_int found "S" 0;
          zH ← group_int found "zH" 0;
          zM ← group_int found "zM" 0;
          if 60 * zH + zM <? 1440
          then new_datetime y m d H M S (group_micros found "f")
          else Raise ValueError
      | _ => Raise ValueError
      end
  | _ => Raise TypeError
  end.

(** [value.replace('Z', '+00:00')] *)
Definition replace_Z (v : value) : result value :=
  match v with
  | VStr s => Return (VStr (replace_char "Z" "+00:00" s))
  | _ => Raise AttributeError
  end.

(** ** [validate_type] *)

Definition textual_types : list string :=
  ["STRING"; "BYTES"; "JSON"; "GEOGRAPHY"; "INTERVAL"].
Definition integer_types : list string :=
  ["INT64"; "INTEGER"; "INT"; "SMALLINT"; "BIGINT"; "TINYINT"; "BYTEINT"].
Definition decimal_types : list string :=
  ["NUMERIC"; "DECIMAL"; "BIGNUMERIC"; "BIGDECIMAL"; "FLOAT64"].

(** Evaluate an expression for its exceptions only. *)
Definition exec_ {A} (e : result A) : result unit := _ ← e; Return ().

Section ValidateType.
Variable py : interpreter.

(** The TIMESTAMP branch: the nested [try]/[except ValueError] blocks. *)
Definition timestamp (value : value) : result unit :=
  try_except
    (found ← re_match iso_pattern value;
     if bool_decide (is_Some found)
     then arg ← replace_Z value; exec_ (fromisoformat arg)
     else exec_ (strptime py value "%Y-%m-%d %H:%M:%S.%f %Z"))
    is_ValueError
    (try_except
       (exec_ (strptime py value "%Y-%m-%d %H:%M:%S %Z"))
       is_ValueError
       (try_except
          (exec_ (strptime py value "%Y-%m-%d %H:%M:%S.%f"))
          is_ValueError
          (exec_ (strptime py value "%Y-%m-%d %H:%M:%S")))).

(** The two files share [validate_type] up to its final [else]. *)
Definition validate_type_with (otherwise : value -> result bool)
    (value : value) (field_type : string) : result bool :=
  try_except
    (if str_in field_type textual_types then
       _ ← str py value; Return true
     else if str_in field_type integer_types then
       _ ← int value; Return true
     else if str_in field_type decimal_types then
       _ ← float value; Return true
     else if String.eqb field_type "BOOL" then
       text ← str py value;
       if negb (str_in (lower text) ["true"; "false"; "1"; "0"])
       then Return false
       else Return true
     else if String.eqb field_type "DATE" then
       _ ← strptime py value "%Y-%m-%d"; Return true
     else if String.eqb field_type "DATETIME" then
       _ ← strptime py value "%Y-%m-%d %H:%M:%S"; Return true
     else if String.eqb field_type "TIME" then
       _ ← strptime py value "%H:%M:%S"; Return true
     else if String.eqb field_type "TIMESTAMP" then
       _ ← timestamp value; Return true
     else otherwise value)
    is_ValueError_or_TypeError
    (Return false).
End ValidateType.

(** ** [parse_data] *)

Fixpoint for_each {A B} (f : A -> result B) (l : list A) : result (list B) :=
  match l with
  | [] => Return []
  | x :: l' => y ← f x; ys ← for_each f l'; Return (y :: ys)
  end.

Section ParseData.
(** [ast.literal_eval], applied to any value a row may hold. *)
Variable literal_eval : value -> result value.

(** The [try]/[except (ValueError, SyntaxError)] around one item. *)
Definition parse_item (item : value) : result value :=
  try_except (literal_eval item) is_ValueError_or_SyntaxError (Return item).

Definition parse_row (row : list value) : result (list value) :=
  for_each parse_item row.

Definition parse_data (data : list (list value)) : result (list (list value)) :=
  for_each parse_row data.
End ParseData.

(** ** Rows as records *)

(** [{col_name: value for col_name, value in zip(column_names, row)}] *)
Definition dict_row (column_names : list string) (row : list value)
    : gmap string value :=
  foldl (fun d kv => <[kv.1 := kv.2]> d) ∅ (zip column_names row).

(** ** The two files *)

Module schema_val.
Definition validate_type (py : interpreter) : value -> string -> result bool :=
  validate_type_with py (fun _ => Return false).

Definition validate_data (py : interpreter) (data : list (list value))
    (schema : list field) : list probe * result unit :=
  validate_rows (str py) (validate_type py) data schema.

Definition convert_to_dict_format (data : list (list value))
    (column_names : list string) : list (gmap string value) :=
  dict_row column_names <$> data.
End schema_val.

Module df_bq_ingest.
(** The dictionary passed between the pipeline's stages. *)
Record element : Type := Element {
  data : list (list value);
  parsed_data : option (list (list value))
}.

Module SchemaValidation.
(** Here the final [else] is [str(value)], and [True] is returned. *)
Definition validate_type (py : interpreter) : value -> string -> result bool :=
  validate_type_with py (fun value => _ ← str py value; Return true).

Definition validate_data (py : interpreter) (data : list (list value))
    (schema : list field) : list probe * result unit :=
  validate_rows (str py) (validate_type py) data schema.
End SchemaValidation.

Module FormatToBqRow.
(** [process] yields one record per row of [element['parsed_data']]. *)
Definition process (column_names : list string) (e : element)
    : result (list (gmap string value)) :=
  match parsed_data e with
  | Some rows => Return (dict_row column_names <$> rows)
  | None => Raise KeyError
  end.
End FormatToBqRow.
End df_bq_ingest.

(** ** Fixtures *)

(** An interpreter on a host whose local zone is UTC
    ([time.tzname == ('UTC', 'UTC')], no daylight saving time).  The textual
    form of floats, byte strings and composite values is not spelled out; a
    placeholder stands for it. *)
Definition utc_host : interpreter :=
  Interpreter (fun _ => Return "<object>") ("UTC", "UTC") false.

(** The schema of the end-to-end scenario. *)
Definition person_schema : list field :=
  [Field "name" "STRING" (Some "REQUIRED");
   Field "age" "INT64" (Some "REQUIRED");
   Field "salary" "FLOAT64" (Some "NULLABLE")].

(** [8000.5] and [30.5] *)
Definition float_8000_5 : spec_float := S754_finite false 16001 (-1).
Definition float_30_5 : spec_float := S754_finite false 61 (-1).

(** The exception of [validate_data] for a null in a REQUIRED field. *)
Definition missing (f : field) : exn :=
  SchemaValidationException (RequiredFieldMissing (name f)).

(** The exception of [validate_data] for a value of the wrong type. *)
Definition mismatch (v : value) (f : field) : exn :=
  SchemaValidationException (CannotConvert (name f) v (type f)).

(** The type tags [validate_type] has a branch for. *)
Definition recognized_types : list string :=
  textual_types ++ integer_types ++ decimal_types ++
  ["BOOL"; "DATE"; "DATETIME"; "TIME"; "TIMESTAMP"].

Definition recognized (field_type : string) : bool :=
  str_in field_type recognized_types.

(** ** What the integer class accepts *)

(** Decimal digits with single underscores between them. *)
Inductive digit_run : string -> Prop :=
  | run_last c : is_digit c = true -> digit_run (String c "")
  | run_next c s : is_digit c = true -> digit_run s -> digit_run (String c s)
  | run_under c s :
      is_digit c = true -> digit_run s -> digit_run (String c (String "_" s)).

(** The text of a base-10 integer: an optional sign, then digits. *)
Definition decimal_text (s : string) : Prop :=
  ∃ sg ds, s = sg +:+ ds ∧ sg ∈ [""; "+"; "-"] ∧ digit_run ds.

(** The values [int] converts: integers and booleans, floats other than
    NaN and the infinities, and decimal text (in a [str] or in [bytes])
    with white space around it and no more digits than the limit. *)
Inductive integer_like : value -> Prop :=
  | like_int n : integer_like (VInt n)
  | like_bool b : integer_like (VBool b)
  | like_zero sg : integer_like (VFloat (S754_zero sg))
  | like_finite sg m e : integer_like (VFloat (S754_finite sg m e))
  | like_str s :
      decimal_text (strip is_text_space s) ->
      (count_digits s <= int_max_str_digits)%nat ->
      integer_like (VStr s)
  | like_bytes s :
      decimal_text (strip is_ascii_space s) ->
      (count_digits s <= int_max_str_digits)%nat ->
      integer_like (VBytes s).

Definition is_infinite (v : value) : bool :=
  match v with VFloat (S754_infinity _) => true | _ => false end.

(** Whether a value is a whole number or decimal text, as the integer
    class is described: an [int], a float without fractional part, or the
    text of a base-10 integer. *)
Definition float_is_whole (f : spec_float) : bool :=
  match f with
  | S754_zero _ => true
  | S754_finite _ m (Z.neg p) => Z.pos m mod 2 ^ Z.pos p =? 0
  | S754_finite _ _ _ => true
  | _ => false
  end.

(** The integer class in the words of its description: the value is
    already integral, or it is a decimal string. *)
Definition integral_or_decimal (v : value) : Prop :=
  match v with
  | VInt _ => True
  | VFloat f => float_is_whole f = true
  | VStr s | VBytes s => decimal_text s
  | _ => False
  end.

(** ** What a regular expression matches

    [matches r s caps rest caps'] : [r] can match a prefix of [s], leaving
    [rest] unread and extending the captured groups [caps] to [caps'].  The
    relation knows no order among the alternatives; [exec] finds one of
    these matches, the first in the order of [re]. *)

Fixpoint all_chars (p : ascii -> bool) (s : string) : bool :=
  match s with
  | EmptyString => true
  | String c s' => p c && all_chars p s'
  end.

Inductive matches : regex -> string -> captures -> string -> captures -> Prop :=
  | matches_eps s caps : matches Eps s caps s caps
  | matches_chr p c s caps :
      p c = true -> matches (Chr p) (String c s) caps s caps
  | matches_seq r1 r2 s caps s1 caps1 s2 caps2 :
      matches r1 s caps s1 caps1 -> matches r2 s1 caps1 s2 caps2 ->
      matches (Seq r1 r2) s caps s2 caps2
  | matches_alt_l r1 r2 s caps rest caps' :
      matches r1 s caps rest caps' -> matches (Alt r1 r2) s caps rest caps'
  | matches_alt_r r1 r2 s caps rest caps' :
      matches r2 s caps rest caps' -> matches (Alt r1 r2) s caps rest caps'
  | matches_rep p lo hi run rest caps :
      all_chars p run = true ->
      (lo <= String.length run)%nat ->
      (∀ h, hi = Some h -> (String.length run <= h)%nat) ->
      matches (Rep p lo hi) (run +:+ rest) caps rest caps
  | matches_opt_some r s caps rest caps' :
      matches r s caps rest caps' -> matches (Opt r) s caps rest caps'
  | matches_opt_none r s caps : matches (Opt r) s caps s caps
  | matches_group g r s caps rest caps' :
      matches r s caps rest caps' ->
      matches (Group g r) s caps rest ((g, consumed s rest) :: caps')
  | matches_eol_end caps : matches Eol "" caps "" caps
  | matches_eol_newline c caps :
      code c = 10%N -> matches Eol (String c "") caps (String c "") caps.

(** ** What the DATE class accepts *)

(** The expression [strptime] compiles ["%Y-%m-%d"] to. *)
Definition date_regex : regex :=
  Seq year_re
   (Seq (chr_ignorecase "-")
     (Seq month_re (Seq (chr_ignorecase "-") (Seq day_re Eps)))).

(** A number written with four digits. *)
Inductive year_text : string -> Z -> Prop :=
  | four_digits a b c d :
      is_digit a = true -> is_digit b = true ->
      is_digit c = true -> is_digit d = true ->
      year_text (String a (String b (String c (String d ""))))
        (1000 * digit_value a + 100 * digit_value b +
         10 * digit_value c + digit_value d).

(** A number written with one or two digits. *)
Inductive short_number : string -> Z -> Prop :=
  | one_digit c : is_digit c = true -> short_number (String c "") (digit_value c)
  | two_digits c d :
      is_digit c = true -> is_digit d = true ->
      short_number (String c (String d "")) (10 * digit_value c + digit_value d).

Definition month_text (t : string) (n : Z) : Prop :=
  short_number t n ∧ 1 <= n <= 12.

(** A day of the month: one or two digits, or a space and a digit. *)
Definition day_text (t : string) (n : Z) : Prop :=
  (short_number t n ∧ 1 <= n <= 31) ∨
  (∃ c, t = String " " (String c "") ∧ is_digit c = true ∧
        n = digit_value c ∧ 1 <= n).

(** The text ["%Y-%m-%d"] accepts: a four-digit year, a month and a day
    that need not be padded, and together a date of the calendar. *)
Definition date_text (s : string) : Prop :=
  ∃ y m d ny nm nd,
    s = y +:+ "-" +:+ m +:+ "-" +:+ d ∧
    year_text y ny ∧ month_text m nm ∧ day_text d nd ∧
    valid_date ny nm nd = true.

(** The format [YYYY-MM-DD] read exactly: four, two and two digits. *)
Definition padded_date_text (s : string) : Prop :=
  ∃ y m d ny nm nd,
    s = y +:+ "-" +:+ m +:+ "-" +:+ d ∧
    year_text y ny ∧ String.length m = 2%nat ∧ String.length d = 2%nat ∧
    short_number m nm ∧ short_number d nd ∧
    valid_date ny nm nd = true.

(** The month and day texts, listed. *)
Definition month_texts : list string :=
  ["1"; "2"; "3"; "4"; "5"; "6"; "7"; "8"; "9";
   "01"; "02"; "03"; "04"; "05"; "06"; "07"; "08"; "09"; "10"; "11"; "12"].

Definition day_texts : list string :=
  month_texts ++
  ["13"; "14"; "15"; "16"; "17"; "18"; "19"; "20"; "21"; "22"; "23"; "24";
   "25"; "26"; "27"; "28"; "29"; "30"; "31";
   " 1"; " 2"; " 3"; " 4"; " 5"; " 6"; " 7"; " 8"; " 9"].

(** ** The TIMESTAMP class as a chain of dialects *)

(** The first dialect: a value that matches the ISO pattern is read by
    [fromisoformat], its ['Z'] written as ["+00:00"]. *)
Definition stage_iso (v : value) : result unit :=
  found ← re_match iso_pattern v;
  if bool_decide (is_Some found)
  then arg ← replace_Z v; exec_ (fromisoformat arg)
  else Raise ValueError.

(** The other four, each a format of [strptime]. *)
Definition timestamp_formats : list string :=
  ["%Y-%m-%d %H:%M:%S.%f %Z"; "%Y-%m-%d %H:%M:%S %Z";
   "%Y-%m-%d %H:%M:%S.%f"; "%Y-%m-%d %H:%M:%S"].

Definition stage_format (py : interpreter) (fmt : string) (v : value)
    : result unit :=
  exec_ (strptime py v fmt).

Definition timestamp_stages (py : interpreter) : list (value -> result unit) :=
  stage_iso :: (stage_format py <$> timestamp_formats).

(** An ordered fallback chain: the first stage that succeeds wins, a stage
    that raises [ValueError] hands over to the next, and the last one's
    failure is the chain's. *)
Fixpoint first_success (stages : list (value -> result unit)) (v : value)
    : result unit :=
  match stages with
  | [] => Raise ValueError
  | [stage] => stage v
  | stage :: stages' =>
      try_except (stage v) is_ValueError (first_success stages' v)
  end.

Definition timestamp_chain (py : interpreter) (v : value) : result unit :=
  first_success (timestamp_stages py) v.

(** The common start of the four formats: a date, then white space. *)
Definition date_then (r : regex) : regex :=
  Seq year_re
   (Seq (chr_ignorecase "-")
     (Seq month_re (Seq (chr_ignorecase "-") (Seq day_re r)))).

(** What ["%Y-%m-%d %H:%M:%S %Z"] compiles to. *)
Definition zoned_regex (names : list string) : regex :=
  date_then (Seq (Rep is_space 1 None)
    (Seq hour_re (Seq (chr_ignorecase ":") (Seq minute_re
      (Seq (chr_ignorecase ":") (Seq second_re
        (Seq (Rep is_space 1 None) (Seq (zone_re names) Eps)))))))).

(** The names before "utc" in a list are no shorter than it. *)
Definition utc_reachable (l : list string) : Prop :=
  ∃ l1 l2, l = l1 ++ "utc" :: l2 ∧
           Forall (fun w => (3 <= String.length w)%nat) l1.

(** ** A reference evaluator for literals

    [parse_data] is stated over any [literal_eval].  To run it, this is
    [ast.literal_eval] on a core of the literal grammar: the names [None],
    [True] and [False], decimal integers, quoted strings without escapes,
    unary minus, and lists, tuples, sets and dictionaries of these, with
    spaces between the tokens.  A text outside this core (floats, escapes,
    string prefixes, operators, calls, brackets and signs nested more than
    16 deep, ...) is answered by [None]: the evaluator does not speak about
    it.  Evaluation has the two
    phases of the library: the text is parsed (which may raise
    [SyntaxError]), then the tree is converted (which may raise [ValueError]
    on a node that is no literal and [TypeError] on an unhashable key). *)

Inductive token : Type :=
  | TName (s : string)
  | TInt (n : Z)
  | TStr (s : string)
  | TOpen (c : ascii)
  | TClose (c : ascii)
  | TComma
  | TColon
  | TMinus.

#[warnings="-register-all"]
Inductive ast : Type :=
  | AName (id : string)
  | AConst (v : value)
  | ANeg (operand : ast)
  | AList (elts : list ast)
  | ATuple (elts : list ast)
  | ASet (elts : list ast)
  | ADict (items : list (ast * ast)).

(** The outcome of reading a text: a result, a syntax error, or a text
    outside the core. *)
Inductive reading (A : Type) : Type :=
  | Read (a : A)
  | BadSyntax
  | Outside.
Arguments Read {A} a.
Arguments BadSyntax {A}.
Arguments Outside {A}.

Definition is_letter (c : ascii) : bool :=
  in_range 65 90 c || in_range 97 122 c || Ascii.eqb c "_".

Definition is_quote (c : ascii) : bool :=
  Ascii.eqb c "'" || (code c =? 34)%N.

Definition keywords : list string :=
  ["and"; "as"; "assert"; "async"; "await"; "break"; "class"; "continue";
   "def"; "del"; "elif"; "else"; "except"; "finally"; "for"; "from";
   "global"; "if"; "import"; "in"; "is"; "lambda"; "nonlocal"; "not"; "or";
   "pass"; "raise"; "return"; "try"; "while"; "with"; "yield"].

(** The longest prefix of characters of a class, and the rest. *)
Fixpoint span (p : ascii -> bool) (s : string) : string * string :=
  match s with
  | String c s' =>
      if p c then let (run, rest) := span p s' in (String c run, rest)
      else (EmptyString, s)
  | EmptyString => (EmptyString, EmptyString)
  end.

Definition starts_with (p : ascii -> bool) (s : string) : bool :=
  match s with String c _ => p c | EmptyString => false end.

(** The body of a quoted string up to its closing quote. *)
Fixpoint string_body (quote : ascii) (s : string) : reading (string * string) :=
  match s with
  | EmptyString => BadSyntax
  | String c s' =>
      if Ascii.eqb c quote then Read (EmptyString, s')
      else if Ascii.eqb c "\" || (code c <? 32)%N then Outside
      else match string_body quote s' with
           | Read (body, rest) => Read (String c body, rest)
           | BadSyntax => BadSyntax
           | Outside => Outside
           end
  end.

Definition closer_of (c : ascii) : ascii :=
  if Ascii.eqb c "(" then ")"%char
  else if Ascii.eqb c "[" then "]"%char else "}"%char.

Fixpoint tokenize (fuel : nat) (s : string) : reading (list token) :=
  match fuel with
  | O => Outside
  | S fuel' =>
      let continue (t : token) (rest : string) :=
        match tokenize fuel' rest with
        | Read ts => Read (t :: ts)
        | BadSyntax => BadSyntax
        | Outside => Outside
        end in
      match s with
      | EmptyString => Read []
      | String c s' =>
          if Ascii.eqb c " " then tokenize fuel' s'
          else if is_digit c then
            let (run, rest) := span is_digit s in
            if starts_with (fun d => is_letter d || Ascii.eqb d ".") rest
               || (4300 <? String.length run)%nat
            then Outside
            else if all_chars (Ascii.eqb "0") run then continue (TInt 0) rest
            else if Ascii.eqb c "0" then BadSyntax
            else match int_literal run with
                 | Some n => continue (TInt n) rest
                 | None => Outside
                 end
          else if is_letter c then
            let (id, rest) := span (fun d => is_letter d || is_digit d) s in
            if starts_with is_quote rest || str_in id keywords then Outside
            else continue (TName id) rest
          else if is_quote c then
            match string_body c s' with
            | Read (body, rest) =>
                if starts_with is_quote rest then Outside
                else continue (TStr body) rest
            | BadSyntax => BadSyntax
            | Outside => Outside
            end
          else if Ascii.eqb c "(" || Ascii.eqb c "[" || Ascii.eqb c "{" then
            continue (TOpen c) s'
          else if Ascii.eqb c ")" || Ascii.eqb c "]" || Ascii.eqb c "}" then
            continue (TClose c) s'
          else if Ascii.eqb c "," then continue TComma s'
          else if Ascii.eqb c ":" then continue TColon s'
          else if Ascii.eqb c "-" then continue TMinus s'
          else Outside
      end
  end.

(** [None], [True] and [False] are constants; any other name is a name. *)
Definition name_node (id : string) : ast :=
  if String.eqb id "None" then AConst VNone
  else if String.eqb id "True" then AConst (VBool true)
  else if String.eqb id "False" then AConst (VBool false)
  else AName id.

Definition closes (opener c : ascii) : bool := Ascii.eqb c (closer_of opener).

(** The parser.  [parse_expr] reads one expression; [after_element] and
    [after_entry] read on after an element of a display and after a
    [key: value] entry; the flag tells whether a comma was met. *)
Fixpoint parse_expr (fuel depth : nat) (ts : list token) {struct fuel}
    : reading (ast * list token) :=
  match fuel with
  | O => Outside
  | S fuel' =>
      match ts with
      | [] => BadSyntax
      | TInt n :: rest => Read (AConst (VInt n), rest)
      | TStr s :: rest => Read (AConst (VStr s), rest)
      | TName id :: rest => Read (name_node id, rest)
      | TMinus :: rest =>
          match depth with
          | O => Outside
          | S depth' =>
              match parse_expr fuel' depth' rest with
              | Read (a, rest') => Read (ANeg a, rest')
              | BadSyntax => BadSyntax
              | Outside => Outside
              end
          end
      | TOpen c :: rest =>
          match depth with
          | O => Outside
          | S depth' =>
              match rest with
              | [] => BadSyntax
              | TClose c' :: rest' =>
                  if closes c c' then
                    Read (if Ascii.eqb c "[" then AList []
                          else if Ascii.eqb c "(" then ATuple []
                          else ADict [], rest')
                  else BadSyntax
              | _ =>
                  match parse_expr fuel' depth' rest with
                  | Read (a, TColon :: rest1) =>
                      if Ascii.eqb c "{" then
                        match parse_expr fuel' depth' rest1 with
                        | Read (v, rest2) =>
                            match after_entry fuel' depth' [(a, v)] rest2 with
                            | Read (items, rest3) => Read (ADict items, rest3)
                            | BadSyntax => BadSyntax
                            | Outside => Outside
                            end
                        | BadSyntax => BadSyntax
                        | Outside => Outside
                        end
                      else BadSyntax
                  | Read (a, rest1) =>
                      match after_element fuel' depth' c [a] false rest1 with
                      | Read (elts, commas, rest2) =>
                          Read (if Ascii.eqb c "[" then AList elts
                                else if Ascii.eqb c "{" then ASet elts
                                else match elts, commas with
                                     | [e], false => e
                                     | _, _ => ATuple elts
                                     end, rest2)
                      | BadSyntax => BadSyntax
                      | Outside => Outside
                      end
                  | BadSyntax => BadSyntax
                  | Outside => Outside
                  end
              end
          end
      | TClose _ :: _ | TComma :: _ | TColon :: _ => BadSyntax
      end
  end
with after_element (fuel depth : nat) (opener : ascii) (acc : list ast)
    (commas : bool) (ts : list token) {struct fuel}
    : reading (list ast * bool * list token) :=
  match fuel with
  | O => Outside
  | S fuel' =>
      match ts with
      | [] => BadSyntax
      | TClose c :: rest =>
          if closes opener c then Read (acc, commas, rest) else BadSyntax
      | TComma :: TClose c :: rest =>
          if closes opener c then Read (acc, true, rest) else BadSyntax
      | TComma :: rest =>
          match parse_expr fuel' depth rest with
          | Read (a, rest') =>
              after_element fuel' depth opener (acc ++ [a]) true rest'
          | BadSyntax => BadSyntax
          | Outside => Outside
          end
      | TColon :: _ => BadSyntax
      | _ => Outside
      end
  end
with after_entry (fuel depth : nat) (acc : list (ast * ast))
    (ts : list token) {struct fuel} : reading (list (ast * ast) * list token) :=
  match fuel with
  | O => Outside
  | S fuel' =>
      match ts with
      | [] => BadSyntax
      | TClose c :: rest => if closes "{" c then Read (acc, rest) else BadSyntax
      | TComma :: TClose c :: rest =>
          if closes "{" c then Read (acc, rest) else BadSyntax
      | TComma :: rest =>
          match parse_expr fuel' depth rest with
          | Read (k, TColon :: rest1) =>
              match parse_expr fuel' depth rest1 with
              | Read (v, rest2) => after_entry fuel' depth (acc ++ [(k, v)]) rest2
              | BadSyntax => BadSyntax
              | Outside => Outside
              end
          | Read (_, []) | Read (_, TComma :: _) | Read (_, TClose _ :: _) =>
              BadSyntax
          | Read _ => Outside
          | BadSyntax => BadSyntax
          | Outside => Outside
          end
      | TColon :: _ => BadSyntax
      | _ => Outside
      end
  end.

(** Whether a value can be a key: lists, sets and dictionaries cannot,
    tuples can when their items can. *)
Fixpoint hashable (v : value) : bool :=
  match v with
  | VList _ | VSet _ | VDict _ => false
  | VTuple l =>
      (fix all (l : list value) : bool :=
         match l with
         | [] => true
         | x :: l' => hashable x && all l'
         end) l
  | _ => true
  end.

(** Equality of keys, for the values the evaluator produces: a boolean
    equals the integer it stands for. *)
Fixpoint key_eqb (a b : value) : bool :=
  match a, b with
  | VNone, VNone => true
  | VBool x, VBool y => Bool.eqb x y
  | VBool x, VInt n | VInt n, VBool x => n =? (if x then 1 else 0)
  | VInt n, VInt m => n =? m
  | VStr s, VStr t | VBytes s, VBytes t => String.eqb s t
  | VTuple l, VTuple l' =>
      (fix all (l l' : list value) {struct l} : bool :=
         match l, l' with
         | [], [] => true
         | x :: l1, y :: l1' => key_eqb x y && all l1 l1'
         | _, _ => false
         end) l l'
  | _, _ => false
  end.

(** A set and a dictionary keep the first key of each class of equal
    keys, in the order of insertion; a dictionary keeps the last value. *)
Definition set_insert (v : value) (acc : list value) : list value :=
  if existsb (key_eqb v) acc then acc else acc ++ [v].

Fixpoint dict_insert (k v : value) (acc : list (value * value))
    : list (value * value) :=
  match acc with
  | [] => [(k, v)]
  | (k', v') :: acc' =>
      if key_eqb k k' then (k', v) :: acc' else (k', v') :: dict_insert k v acc'
  end.

(** [_convert]: the items of a display are converted in order, and a key is
    hashed as soon as it (and its value) is converted. *)
Fixpoint convert (node : ast) : result value :=
  match node with
  | AName _ => Raise ValueError
  | AConst v => Return v
  | ANeg (AConst (VInt n)) => Return (VInt (- n))
  | ANeg _ => Raise ValueError
  | AList elts =>
      l ← (fix items (elts : list ast) : result (list value) :=
             match elts with
             | [] => Return []
             | e :: elts' => v ← convert e; vs ← items elts'; Return (v :: vs)
             end) elts;
      Return (VList l)
  | ATuple elts =>
      l ← (fix items (elts : list ast) : result (list value) :=
             match elts with
             | [] => Return []
             | e :: elts' => v ← convert e; vs ← items elts'; Return (v :: vs)
             end) elts;
      Return (VTuple l)
  | ASet elts =>
      l ← (fix items (acc : list value) (elts : list ast) : result (list value) :=
             match elts with
             | [] => Return acc
             | e :: elts' =>
                 v ← convert e;
                 if hashable v then items (set_insert v acc) elts'
                 else Raise TypeError
             end) [] elts;
      Return (VSet l)
  | ADict entries =>
      l ← (fix items (acc : list (value * value)) (entries : list (ast * ast))
             : result (list (value * value)) :=
             match entries with
             | [] => Return acc
             | (ke, ve) :: entries' =>
                 k ← convert ke;
                 v ← convert ve;
                 if hashable k then items (dict_insert k v acc) entries'
                 else Raise TypeError
             end) [] entries;
      Return (VDict l)
  end.

(** [ast.literal_eval] on the core.  A value that is neither a string nor
    a syntax node is a malformed node: the library raises [ValueError] with
    the [repr] of the value in its message.  For a list, tuple, set or
    dictionary that [repr] may itself fail (on deep nesting, with
    [RecursionError]), so the core is silent about them. *)
Definition literal_eval_core (v : value) : option (result value) :=
  match v with
  | VStr s =>
      match tokenize (S (String.length s)) s with
      | Read ts =>
          match parse_expr (4 * S (length ts)) 16 ts with
          | Read (node, []) => Some (convert node)
          | Read (_, _ :: _) => None
          | BadSyntax => Some (Raise SyntaxError)
          | Outside => None
          end
      | BadSyntax => Some (Raise SyntaxError)
      | Outside => None
      end
  | VList _ | VTuple _ | VSet _ | VDict _ => None
  | VNone | VBool _ | VInt _ | VFloat _ | VBytes _ => Some (Raise ValueError)
  end.

(** An evaluator agrees with the core wherever the core speaks. *)
Definition extends_core (literal_eval : value -> result value) : Prop :=
  ∀ v r, literal_eval_core v = Some r -> literal_eval v = r.

(** The core made total, by treating every text outside it as a string
    that is no literal. *)
Definition core_evaluator (v : value) : result value :=
  default (Raise ValueError) (literal_eval_core v).

(** ** The pipeline stages of [df_bq_ingest.py] *)

Definition is_SchemaValidationException (e : exn) : bool :=
  match e with SchemaValidationException _ => true | _ => false end.

Module ingest.
Import df_bq_ingest.

(** [SchemaValidation.process]: the rows of [element['data']] are parsed
    and validated; the element is yielded, with the parsed rows stored under
    ['parsed_data'], when validation passes, and nothing is yielded when it
    raises [SchemaValidationException], the one exception the [try] handles.
    The result is the list of what the generator yields. *)
Definition process (py : interpreter) (literal_eval : value -> result value)
    (schema : list field) (e : element) : result (list element) :=
  try_except
    (parsed ← parse_data literal_eval (data e);
     _ ← (SchemaValidation.validate_data py parsed schema).2;
     Return [Element (data e) (Some parsed)])
    is_SchemaValidationException
    (Return []).

(** [column_names = [col['name'] for col in schema]] in [run_pipeline]. *)
Definition column_names (schema : list field) : list string := name <$> schema.

(** The records one input element contributes to the write, through the
    stages of [run_pipeline]: validation, conversion of every yielded
    element by [FormatToBqRow], then the filter [row is not None], which no
    record fails. *)
Definition records (py : interpreter) (literal_eval : value -> result value)
    (schema : list field) (e : element) : result (list (gmap string value)) :=
  yielded ← process py literal_eval schema e;
  rows ← for_each (FormatToBqRow.process (column_names schema)) yielded;
  Return (filter (fun _ => True) (concat rows)).
End ingest.

(** ** [create_bq.py] *)

Module create_bq.
(** The arguments of one call [bigquery.SchemaField(name, type, mode=mode)]. *)
Record SchemaField : Type := MkSchemaField {
  sf_name : string;
  sf_type : string;
  sf_mode : string
}.

(** The loop of [create_bigquery_table] that builds [table_schema]: here
    the mode is read with [field['mode']], which raises [KeyError] when the
    key is absent. *)
Definition table_schema (schema : list field) : result (list SchemaField) :=
  for_each (fun f =>
    match mode f with
    | Some field_mode => Return (MkSchemaField (name f) (type f) field_mode)
    | None => Raise KeyError
    end) schema.
End create_bq.

(** ** What the fields of a row must satisfy *)

(** The check of one value against one field, as [validate_data] makes it
    with a given [validate_type]: a null passes unless the field is
    REQUIRED, any other value when [validate_type] returns [True]. *)
Definition field_ok (validate_type : value -> string -> result bool)
    (v : value) (f : field) : Prop :=
  if is_None v then get_mode f ≠ "REQUIRED"
  else validate_type v (type f) = Return true.

Definition is_str (v : value) : bool :=
  match v with VStr _ => true | _ => false end.

(** [None], a Boolean, a number or a byte string: a value that is neither
    a string nor a container. *)
Definition is_scalar (v : value) : bool :=
  match v with
  | VNone | VBool _ | VInt _ | VFloat _ | VBytes _ => true
  | _ => false
  end.

(** The rows that pass [validate_data] with a given [validate_type]. *)
Definition valid_rows (validate_type : value -> string -> result bool)
    (schema : list field) (rows : list (list value)) : Prop :=
  Forall (fun row => Forall2 (field_ok validate_type) row schema) rows.

(** The values on which a numeric conversion overflows: [int] of an
    infinite float, [float] of an [int] beyond the largest double. *)
Definition overflows (v : value) (field_type : string) : Prop :=
  (str_in field_type integer_types = true ∧ is_infinite v = true) ∨
  (str_in field_type decimal_types = true ∧
   ∃ n, v = VInt n ∧ 2 ^ 1024 - 2 ^ 970 <= Z.abs n).

(** How [parse_data] relates an item to what it puts in its place: the
    literal's value, or the item itself when the evaluation raises an
    exception the [except] clause names. *)
Definition parsed_as (literal_eval : value -> result value)
    (item parsed_item : value) : Prop :=
  literal_eval item = Return parsed_item ∨
  (parsed_item = item ∧
   ∃ e, literal_eval item = Raise e ∧ is_ValueError_or_SyntaxError e = true).

(** * Properties *)

(** ** The loop of [validate_data] *)

Section ValidateFacts.
Variable format_value : value -> result string.
Variable validate_type : value -> string -> result bool.

Lemma check_fields_app (r1 r2 : list value) (s1 s2 : list field) :
  length r1 = length s1 ->
  check_fields format_value validate_type (r1 ++ r2) (s1 ++ s2) =
    match check_fields format_value validate_type r1 s1 with
    | (log, Return _) =>
        let (log', r) := check_fields format_value validate_type r2 s2 in (log ++ log', r)
    | (log, Raise e) => (log, Raise e)
    end.
Proof.
  revert s1. induction r1 as [|v r1 IH]; intros [|f s1] Hlen; simplify_eq/=.
  - by destruct (check_fields _ _ r2 s2).
  - destruct (check_field _ _ v f) as [log [[]|e]]; [|done].
    rewrite (IH s1) by done.
    destruct (check_fields _ _ r1 s1) as [log1 [[]|e1]]; [|done].
    destruct (check_fields _ _ r2 s2) as [log2 res]. by rewrite (assoc_L (++)).
Qed.

Lemma validate_rows_app (before after : list (list value)) (schema : list field) :
  validate_rows format_value validate_type (before ++ after) schema =
    match validate_rows format_value validate_type before schema with
    | (log, Return _) =>
        let (log', r) := validate_rows format_value validate_type after schema in
        (log ++ log', r)
    | (log, Raise e) => (log, Raise e)
    end.
Proof.
  induction before as [|row before IH]; simpl.
  - by destruct (validate_rows _ _ after schema).
  - destruct (validate_row _ _ row schema) as [log [[]|e]]; [|done].
    rewrite IH.
    destruct (validate_rows _ _ before schema) as [log1 [[]|e1]]; [|done].
    destruct (validate_rows _ _ after schema) as [log2 res].
    by rewrite (assoc_L (++)).
Qed.

Lemma validate_row_length_mismatch (row : list value) (schema : list field) :
  length row ≠ length schema ->
  validate_row format_value validate_type row schema =
    ([], Raise (SchemaValidationException RowLengthMismatch)).
Proof.
  intros Hne. unfold validate_row.
  by destruct (Nat.eqb_spec (length row) (length schema)).
Qed.

Lemma validate_row_length_match (row : list value) (schema : list field) :
  length row = length schema ->
  validate_row format_value validate_type row schema = check_fields format_value validate_type row schema.
Proof. intros Hlen. unfold validate_row. by rewrite Hlen, Nat.eqb_refl. Qed.

Lemma validate_rows_arity (before after : list (list value))
    (row : list value) (schema : list field) (log : list probe) :
  length row ≠ length schema ->
  validate_rows format_value validate_type before schema = (log, Return ()) ->
  validate_rows format_value validate_type (before ++ row :: after) schema =
    (log, Raise (SchemaValidationException RowLengthMismatch)).
Proof.
  intros Hne Hbefore. rewrite validate_rows_app, Hbefore. simpl.
  rewrite validate_row_length_mismatch by done. by rewrite (right_id_L [] (++)).
Qed.

Lemma check_field_None_required (f : field) :
  get_mode f = "REQUIRED" ->
  check_field format_value validate_type VNone f =
    ([Inspected VNone f],
     Raise (SchemaValidationException (RequiredFieldMissing (name f)))).
Proof. intros Hmode. unfold check_field. by rewrite Hmode. Qed.

Lemma check_field_None_optional (f : field) :
  get_mode f ≠ "REQUIRED" ->
  check_field format_value validate_type VNone f = ([Inspected VNone f], Return ()).
Proof.
  intros Hmode. unfold check_field.
  destruct (String.eqb_spec (get_mode f) "REQUIRED"); done.
Qed.
End ValidateFacts.

(** ** Arity and null values (C2, C3) *)

(** C2.  A row whose length differs from the schema's makes
    [validate_data] raise the row-length exception as soon as the loop
    reaches it: the log of field checks is the one of the rows before it, so
    no field of that row (nor of a later one) is inspected or coerced. *)
Theorem validate_data_arity_mismatch (py : interpreter)
    (before after : list (list value)) (row : list value)
    (schema : list field) (log : list probe) :
  length row ≠ length schema ->
  schema_val.validate_data py before schema = (log, Return ()) ->
  schema_val.validate_data py (before ++ row :: after) schema =
    (log, Raise (SchemaValidationException RowLengthMismatch)).
Proof. apply validate_rows_arity. Qed.

Lemma validate_data_arity_mismatch_witness :
  schema_val.validate_data utc_host
    ([[VStr "Alice"; VStr "28"; VNone]] ++
     [VStr "Carol"; VStr "40"] :: [[VNone; VNone; VNone]]) person_schema =
    ([Inspected (VStr "Alice") (Field "name" "STRING" (Some "REQUIRED"));
      Coerced (VStr "Alice") "STRING";
      Inspected (VStr "28") (Field "age" "INT64" (Some "REQUIRED"));
      Coerced (VStr "28") "INT64";
      Inspected VNone (Field "salary" "FLOAT64" (Some "NULLABLE"))],
     Raise (SchemaValidationException RowLengthMismatch)).
Proof.
  apply validate_data_arity_mismatch; [simpl; lia | vm_compute; reflexivity].
Defined.

(** C3.  A null value in a row of the right length.  At a REQUIRED field
    the check of that field raises the missing-field exception without
    calling [validate_type], whatever the declared type, so the row fails:
    with that exception once the fields before it have passed, and with
    theirs otherwise.  At a field of any other mode (NULLABLE, or no mode at
    all) the check passes without calling [validate_type], and the row fares
    as it would without that field. *)
Theorem null_value_check (py : interpreter) (r1 r2 : list value)
    (s1 s2 : list field) (f : field) :
  length r1 = length s1 ->
  length r2 = length s2 ->
  let validate_type := schema_val.validate_type py in
  let outcome := (schema_val.validate_data py
                    [r1 ++ VNone :: r2] (s1 ++ f :: s2)).2 in
  if String.eqb (get_mode f) "REQUIRED" then
    check_field (str py) validate_type VNone f =
      ([Inspected VNone f], Raise (missing f)) ∧
    outcome = match (check_fields (str py) validate_type r1 s1).2 with
              | Return _ => Raise (missing f)
              | Raise e => Raise e
              end
  else
    check_field (str py) validate_type VNone f =
      ([Inspected VNone f], Return ()) ∧
    outcome = (schema_val.validate_data py [r1 ++ r2] (s1 ++ s2)).2.
Proof.
  intros Hlen1 Hlen2 vt outcome. subst outcome. unfold schema_val.validate_data.
  simpl. fold vt.
  rewrite !validate_row_length_match
    by (rewrite !length_app; simpl; lia).
  rewrite !check_fields_app by done. simpl.
  destruct (String.eqb_spec (get_mode f) "REQUIRED") as [Hmode|Hmode].
  - rewrite check_field_None_required by done. split; [done|].
    destruct (check_fields (str py) vt r1 s1) as [log [[]|e]]; reflexivity.
  - rewrite check_field_None_optional by done. split; [done|].
    destruct (check_fields (str py) vt r1 s1) as [log [[]|e]]; [|reflexivity].
    destruct (check_fields (str py) vt r2 s2) as [log2 [[]|e]]; reflexivity.
Qed.

Lemma null_value_check_witness :
  (check_field (str utc_host) (schema_val.validate_type utc_host) VNone
     (Field "name" "STRING" (Some "REQUIRED")) =
     ([Inspected VNone (Field "name" "STRING" (Some "REQUIRED"))],
      Raise (missing (Field "name" "STRING" (Some "REQUIRED")))) ∧
   (schema_val.validate_data utc_host
      [[] ++ VNone :: [VStr "28"; VFloat float_8000_5]]
      ([] ++ Field "name" "STRING" (Some "REQUIRED") ::
         [Field "age" "INT64" (Some "REQUIRED");
          Field "salary" "FLOAT64" (Some "NULLABLE")])).2 =
     Raise (missing (Field "name" "STRING" (Some "REQUIRED")))) ∧
  (check_field (str utc_host) (schema_val.validate_type utc_host) VNone
     (Field "salary" "FLOAT64" None) =
     ([Inspected VNone (Field "salary" "FLOAT64" None)], Return ()) ∧
   (schema_val.validate_data utc_host
      [[VStr "Alice"; VStr "28"] ++ VNone :: []]
      ([Field "name" "STRING" (Some "REQUIRED");
        Field "age" "INT64" (Some "REQUIRED")] ++
         Field "salary" "FLOAT64" None :: [])).2 =
     (schema_val.validate_data utc_host
        [[VStr "Alice"; VStr "28"] ++ []]
        ([Field "name" "STRING" (Some "REQUIRED");
          Field "age" "INT64" (Some "REQUIRED")] ++ [])).2).
Proof.
  split.
  - apply (null_value_check utc_host [] [VStr "28"; VFloat float_8000_5] []
             [Field "age" "INT64" (Some "REQUIRED");
              Field "salary" "FLOAT64" (Some "NULLABLE")]
             (Field "name" "STRING" (Some "REQUIRED"))); reflexivity.
  - apply (null_value_check utc_host [VStr "Alice"; VStr "28"] []
             [Field "name" "STRING" (Some "REQUIRED");
              Field "age" "INT64" (Some "REQUIRED")] []
             (Field "salary" "FLOAT64" None)); reflexivity.
Defined.

(** ** Type tags and the BOOL class (C1, C6) *)

Lemma str_in_true (x : string) (l : list string) : str_in x l = true <-> x ∈ l.
Proof.
  unfold str_in. rewrite existsb_exists, list_elem_of_In. split.
  - by intros (y & Hin & ->%String.eqb_eq).
  - intros Hin. exists x. by rewrite String.eqb_refl.
Qed.

Lemma str_in_false (x : string) (l : list string) : str_in x l = false <-> x ∉ l.
Proof. rewrite <- str_in_true. by destruct (str_in x l). Qed.

Lemma str_in_app (x : string) (l1 l2 : list string) :
  str_in x (l1 ++ l2) = str_in x l1 || str_in x l2.
Proof. apply existsb_app. Qed.

(** With a tag outside the recognised ones, [validate_type] is its final
    [else]. *)
Lemma validate_type_with_unrecognized (py : interpreter)
    (otherwise : value -> result bool) (v : value) (field_type : string) :
  recognized field_type = false ->
  validate_type_with py otherwise v field_type =
    try_except (otherwise v) is_ValueError_or_TypeError (Return false).
Proof.
  unfold recognized, recognized_types. rewrite !str_in_app.
  intros [Htext [Hint [Hdec Hrest]%orb_false_elim]%orb_false_elim]%orb_false_elim.
  unfold validate_type_with. rewrite Htext, Hint, Hdec.
  cbn in Hrest. repeat apply orb_false_elim in Hrest as [? Hrest].
  by repeat match goal with H : String.eqb _ _ = false |- _ => rewrite H; clear H end.
Qed.

Lemma check_field_not_None (format_value : value -> result string)
    (validate_type : value -> string -> result bool)
    (v : value) (f : field) :
  is_None v = false ->
  check_field format_value validate_type v f =
    ([Inspected v f; Coerced v (type f)],
     match validate_type v (type f) with
     | Return true => Return ()
     | Return false => _ ← format_value v; Raise (mismatch v f)
     | Raise e => Raise e
     end).
Proof. intros Hv. unfold check_field. by rewrite Hv, andb_false_r. Qed.

(** C1, as amended.  With a non-null value and a type tag outside the
    recognised classes, [validate_type] of [schema_val.py] returns [False],
    and a row of the right length holding such a value fails once the
    fields before it have passed (and with their exception otherwise): with
    the cannot-convert exception of that field when the value can be
    formatted into its message, and with the exception of [str(value)] when
    it cannot.  In [df_bq_ingest.py] the final [else] of [validate_type] is
    [str(value)]: the same value is accepted, and the check of its field
    passes, whenever [str(value)] returns; when it raises, the value is
    rejected ([ValueError], [TypeError]) or the exception escapes. *)
Theorem unknown_type_tag (py : interpreter) (r1 r2 : list value)
    (s1 s2 : list field) (v : value) (f : field) :
  recognized (type f) = false ->
  is_None v = false ->
  length r1 = length s1 ->
  length r2 = length s2 ->
  schema_val.validate_type py v (type f) = Return false ∧
  (schema_val.validate_data py [r1 ++ v :: r2] (s1 ++ f :: s2)).2 =
    match (check_fields (str py) (schema_val.validate_type py) r1 s1).2 with
    | Return _ => _ ← str py v; Raise (mismatch v f)
    | Raise e => Raise e
    end ∧
  df_bq_ingest.SchemaValidation.validate_type py v (type f) =
    try_except (_ ← str py v; Return true)
      is_ValueError_or_TypeError (Return false) ∧
  (∀ text,
     str py v = Return text ->
     df_bq_ingest.SchemaValidation.validate_type py v (type f) = Return true ∧
     check_field (str py) (df_bq_ingest.SchemaValidation.validate_type py) v f =
       ([Inspected v f; Coerced v (type f)], Return ())).
Proof.
  intros Htag Hv Hlen1 Hlen2.
  assert (schema_val.validate_type py v (type f) = Return false) as Hfalse.
  { unfold schema_val.validate_type.
    by rewrite validate_type_with_unrecognized. }
  assert (df_bq_ingest.SchemaValidation.validate_type py v (type f) =
          try_except (_ ← str py v; Return true)
            is_ValueError_or_TypeError (Return false)) as Hstr.
  { unfold df_bq_ingest.SchemaValidation.validate_type.
    by rewrite validate_type_with_unrecognized. }
  split_and!; [done| |done|].
  - unfold schema_val.validate_data. simpl.
    rewrite validate_row_length_match by (rewrite !length_app; simpl; lia).
    rewrite check_fields_app by done. simpl.
    rewrite check_field_not_None, Hfalse by done.
    destruct (check_fields _ _ r1 s1) as [log [[]|e]]; [|reflexivity].
    simpl. by destruct (str py v).
  - intros text Htext. rewrite Hstr, Htext. split; [done|].
    by rewrite check_field_not_None, Hstr, Htext.
Qed.

Lemma unknown_type_tag_witness :
  schema_val.validate_type utc_host (VList [VStr "elem1"; VStr "elem2"])
    "ARRAY" = Return false ∧
  (schema_val.validate_data utc_host
     [[VStr "John"] ++ VList [VStr "elem1"; VStr "elem2"] :: []]
     ([Field "name" "STRING" (Some "REQUIRED")] ++
        Field "tags" "ARRAY" (Some "NULLABLE") :: [])).2 =
    Raise (mismatch (VList [VStr "elem1"; VStr "elem2"])
             (Field "tags" "ARRAY" (Some "NULLABLE"))) ∧
  df_bq_ingest.SchemaValidation.validate_type utc_host
    (VList [VStr "elem1"; VStr "elem2"]) "ARRAY" = Return true ∧
  check_field (str utc_host)
    (df_bq_ingest.SchemaValidation.validate_type utc_host)
    (VList [VStr "elem1"; VStr "elem2"])
    (Field "tags" "ARRAY" (Some "NULLABLE")) =
    ([Inspected (VList [VStr "elem1"; VStr "elem2"])
        (Field "tags" "ARRAY" (Some "NULLABLE"));
      Coerced (VList [VStr "elem1"; VStr "elem2"]) "ARRAY"], Return ()).
Proof.
  destruct (unknown_type_tag utc_host [VStr "John"] []
              [Field "name" "STRING" (Some "REQUIRED")] []
              (VList [VStr "elem1"; VStr "elem2"])
              (Field "tags" "ARRAY" (Some "NULLABLE"))
              eq_refl eq_refl eq_refl eq_refl)
    as (Hfalse & Hrow & _ & Haccepted).
  destruct (Haccepted "<object>" eq_refl) as [Htrue Hfield].
  split_and!; [exact Hfalse|exact Hrow|exact Htrue|exact Hfield].
Defined.

(** C1, as stated, fails on [df_bq_ingest.py]: ["ARRAY"] is no recognised
    tag, yet the pipeline's [validate_type] accepts a list under it and the
    row holding it is valid. *)
Lemma unknown_type_tag_accepted :
  recognized "ARRAY" = false ∧
  df_bq_ingest.SchemaValidation.validate_type utc_host
    (VList [VStr "elem1"; VStr "elem2"]) "ARRAY" = Return true ∧
  (df_bq_ingest.SchemaValidation.validate_data utc_host
     [[VList [VStr "elem1"; VStr "elem2"]]]
     [Field "tags" "ARRAY" (Some "NULLABLE")]).2 = Return ().
Proof. by vm_compute. Qed.

(** An [int] of more than 4300 digits has no text.  Under an unknown tag
    the pipeline's [validate_type] rejects it, the [ValueError] of [str]
    being caught, and [validate_data] of [schema_val.py] fails with that
    [ValueError], raised while the message is formatted. *)
Lemma huge_int_unknown_tag (py : interpreter) (n : Z) (f : field) :
  recognized (type f) = false ->
  int_str_bound <= Z.abs n ->
  str py (VInt n) = Raise ValueError ∧
  df_bq_ingest.SchemaValidation.validate_type py (VInt n) (type f) =
    Return false ∧
  (schema_val.validate_data py [[VInt n]] [f]).2 = Raise ValueError.
Proof.
  intros Htag Hbig.
  assert (str py (VInt n) = Raise ValueError) as Hstr.
  { unfold str. by destruct (Z.ltb_spec (Z.abs n) int_str_bound); [lia|]. }
  split_and!; [done|..].
  - unfold df_bq_ingest.SchemaValidation.validate_type.
    rewrite validate_type_with_unrecognized by done. by rewrite Hstr.
  - unfold schema_val.validate_data, validate_rows, validate_row,
      check_fields, check_field.
    cbn [length Nat.eqb negb is_None]. rewrite andb_false_r.
    unfold schema_val.validate_type.
    rewrite validate_type_with_unrecognized by done. cbn [try_except].
    by rewrite Hstr.
Qed.

(** C6.  A value is coercible to BOOL exactly when [str(value)] returns a
    text whose lower-cased form is one of "true", "false", "1", "0".  So
    "TRUE", "0" and "false" are coercible and "yes" is not. *)
Theorem bool_coercible (py : interpreter) (v : value) :
  schema_val.validate_type py v "BOOL" =
    try_except
      (text ← str py v;
       Return (bool_decide (lower text ∈ ["true"; "false"; "1"; "0"])))
      is_ValueError_or_TypeError (Return false) ∧
  (schema_val.validate_type py v "BOOL" = Return true <->
   ∃ text, str py v = Return text ∧
           lower text ∈ ["true"; "false"; "1"; "0"]) ∧
  schema_val.validate_type py (VStr "TRUE") "BOOL" = Return true ∧
  schema_val.validate_type py (VStr "0") "BOOL" = Return true ∧
  schema_val.validate_type py (VStr "false") "BOOL" = Return true ∧
  schema_val.validate_type py (VStr "yes") "BOOL" = Return false.
Proof.
  assert (schema_val.validate_type py v "BOOL" =
    try_except
      (text ← str py v;
       Return (bool_decide (lower text ∈ ["true"; "false"; "1"; "0"])))
      is_ValueError_or_TypeError (Return false)) as Heq.
  { unfold schema_val.validate_type, validate_type_with.
    change (str_in "BOOL" textual_types) with false.
    change (str_in "BOOL" integer_types) with false.
    change (str_in "BOOL" decimal_types) with false.
    cbn -[lower str str_in].
    destruct (str py v) as [text|e]; [|done]. cbn -[lower str_in].
    destruct (str_in _ _) eqn:Hin; simpl.
    - apply str_in_true in Hin. by rewrite bool_decide_eq_true_2.
    - apply str_in_false in Hin. by rewrite bool_decide_eq_false_2. }
  split_and!; [done| |done..].
  rewrite Heq. destruct (str py v) as [text|e]; simpl.
  - split.
    + intros [= Hdec]. apply bool_decide_eq_true in Hdec. eauto.
    + intros (? & [= <-] & Hin). by rewrite bool_decide_eq_true_2.
  - split; [by destruct (is_ValueError_or_TypeError e)|].
    by intros (? & [=] & _).
Qed.

(** ** Rows as records (C10) *)

Lemma foldl_insert_notin (l : list (string * value)) (m : gmap string value)
    (k : string) :
  k ∉ l.*1 -> foldl (fun d kv => <[kv.1 := kv.2]> d) m l !! k = m !! k.
Proof.
  revert m. induction l as [|[k' v'] l IH]; intros m Hk; [done|].
  simpl in *. apply not_elem_of_cons in Hk as [Hne Hk].
  by rewrite IH, lookup_insert_ne.
Qed.

Lemma foldl_insert_in (l : list (string * value)) (m : gmap string value)
    (k : string) (v : value) :
  NoDup l.*1 -> (k, v) ∈ l ->
  foldl (fun d kv => <[kv.1 := kv.2]> d) m l !! k = Some v.
Proof.
  revert m. induction l as [|[k' v'] l IH]; intros m Hnd Hin.
  - by apply elem_of_nil in Hin.
  - simpl in *. apply NoDup_cons in Hnd as [Hfresh Hnd].
    apply elem_of_cons in Hin as [[= -> ->]|Hin].
    + by rewrite foldl_insert_notin, lookup_insert_eq.
    + by apply IH.
Qed.

Lemma foldl_insert_is_Some (l : list (string * value)) (m : gmap string value)
    (k : string) :
  is_Some (foldl (fun d kv => <[kv.1 := kv.2]> d) m l !! k) <->
  k ∈ l.*1 ∨ is_Some (m !! k).
Proof.
  revert m. induction l as [|[k' v'] l IH]; intros m; simpl.
  - rewrite elem_of_nil. tauto.
  - rewrite IH, elem_of_cons.
    destruct (decide (k' = k)) as [->|Hne].
    + rewrite lookup_insert_eq. intuition eauto.
    + rewrite lookup_insert_ne by done. intuition congruence.
Qed.

Lemma zip_fst_take (column_names : list string) (row : list value) :
  (zip column_names row).*1 = take (length row) column_names.
Proof.
  revert row. induction column_names as [|c cs IH]; intros [|v row]; simpl;
    [done..|]. by rewrite IH.
Qed.

Lemma NoDup_take_prefix (n : nat) (l : list string) : NoDup l -> NoDup (take n l).
Proof.
  intros Hnd. rewrite <- (take_drop n l) in Hnd. by apply NoDup_app in Hnd as [? _].
Qed.

Lemma dict_row_lookup (column_names : list string) (row : list value)
    (i : nat) (k : string) (v : value) :
  NoDup column_names ->
  column_names !! i = Some k -> row !! i = Some v ->
  dict_row column_names row !! k = Some v.
Proof.
  intros Hnd Hk Hv. apply foldl_insert_in.
  - rewrite zip_fst_take. by apply NoDup_take_prefix.
  - by apply (elem_of_lookup_zip_with_2 pair _ _ _ _ (k, v) i).
Qed.

Lemma dict_row_keys (column_names : list string) (row : list value) (k : string) :
  is_Some (dict_row column_names row !! k) <->
  k ∈ take (length row) column_names.
Proof.
  unfold dict_row. rewrite foldl_insert_is_Some, zip_fst_take, lookup_empty.
  split; [intros [?|[? [=]]]|]; auto.
Qed.

Lemma dict_row_truncates (column_names : list string) (row : list value) :
  dict_row column_names row =
  dict_row (take (length row) column_names) (take (length column_names) row).
Proof. unfold dict_row. by rewrite (zip_with_take_both pair column_names row). Qed.

(** C10.  [convert_to_dict_format] never fails and gives one record per
    row, as does [FormatToBqRow.process].  When the column names are
    distinct, the record of a row maps the i-th name to the i-th value
    wherever both exist.  Its keys are the first [len(row)] column names: it
    is the record of the two lists cut to the length of the shorter. *)
Theorem convert_to_dict_format_zip (data : list (list value))
    (column_names : list string) :
  length (schema_val.convert_to_dict_format data column_names) = length data ∧
  (∀ raw, df_bq_ingest.FormatToBqRow.process column_names
            (df_bq_ingest.Element raw (Some data)) =
          Return (schema_val.convert_to_dict_format data column_names)) ∧
  ∀ j row, data !! j = Some row ->
    ∃ d, schema_val.convert_to_dict_format data column_names !! j = Some d ∧
         (NoDup column_names -> ∀ i k v,
            column_names !! i = Some k -> row !! i = Some v -> d !! k = Some v) ∧
         (∀ k, is_Some (d !! k) <-> k ∈ take (length row) column_names) ∧
         d = dict_row (take (length row) column_names)
                      (take (length column_names) row).
Proof.
  unfold schema_val.convert_to_dict_format. split_and!.
  - by rewrite length_fmap.
  - done.
  - intros j row Hrow. exists (dict_row column_names row). split_and!.
    + by rewrite list_lookup_fmap, Hrow.
    + intros Hnd i k v. by apply dict_row_lookup.
    + apply dict_row_keys.
    + apply dict_row_truncates.
Qed.

Lemma convert_to_dict_format_zip_witness :
  ∃ d, schema_val.convert_to_dict_format
         [[VStr "Alice"; VInt 28; VNone; VBool true]]
         ["name"; "age"; "salary"] !! 0%nat = Some d ∧
       d !! "age" = Some (VInt 28) ∧
       (is_Some (d !! "salary") <-> "salary" ∈ ["name"; "age"; "salary"]) ∧
       d = dict_row ["name"; "age"; "salary"] [VStr "Alice"; VInt 28; VNone].
Proof.
  destruct (convert_to_dict_format_zip
              [[VStr "Alice"; VInt 28; VNone; VBool true]]
              ["name"; "age"; "salary"]) as (_ & _ & Hrows).
  destruct (Hrows 0%nat _ eq_refl) as (d & Hd & Hpairs & Hkeys & Hcut).
  exists d. split_and!; [exact Hd| |apply Hkeys|exact Hcut].
  apply (Hpairs ltac:(by apply (bool_decide_unpack _)) 1%nat); reflexivity.
Defined.

(** ** The integer class (C5) *)

Lemma digit_run_starts (s : string) :
  digit_run s -> ∃ c s', s = String c s' ∧ is_digit c = true.
Proof. destruct 1; eauto. Qed.

Lemma digits_loop_run (s : string) :
  digit_run s -> ∀ b acc, ∃ n, digits_loop b acc s = Some (n, "").
Proof.
  induction 1 as [c Hc|c s Hc Hrun IH|c s Hc Hrun IH]; intros b acc; simpl;
    rewrite Hc.
  - eauto.
  - apply IH.
  - destruct (digit_run_starts s Hrun) as (d & s' & -> & Hd).
    change (is_digit "_") with false. simpl. rewrite Hd.
    destruct (IH false (10 * acc + digit_value c)) as [n Hn].
    simpl in Hn. rewrite Hd in Hn. eauto.
Qed.

Lemma digits_loop_inv (s : string) (b : bool) (acc n : Z) :
  digits_loop b acc s = Some (n, "") ->
  if b then s = "" ∨ digit_run s ∨ ∃ s', s = String "_" s' ∧ digit_run s'
  else digit_run s.
Proof.
  revert b acc. induction s as [|c s IH]; intros b acc; simpl.
  - destruct b; [auto | done].
  - destruct (is_digit c) eqn:Hc.
    + intros Hloop. apply IH in Hloop as [->|[Hrun|(s' & -> & Hrun)]].
      * destruct b; eauto using digit_run.
      * destruct b; eauto using digit_run.
      * destruct b; eauto using digit_run.
    + destruct (Ascii.eqb_spec c "_") as [->|Hne].
      * destruct b; [|done]. destruct s as [|d s']; [done|].
        destruct (is_digit d) eqn:Hd; [|done].
        intros Hloop. apply IH in Hloop. eauto.
      * destruct b; [|done]. by intros [= _ ?].
Qed.

Lemma digits_run (s : string) :
  (∃ n, digits s = Some (n, "")) <-> digit_run s.
Proof.
  split.
  - intros [n Hdigits]. destruct s as [|c s]; [done|]. unfold digits in Hdigits.
    destruct (is_digit c); [|done]. by apply digits_loop_inv in Hdigits.
  - intros Hrun. destruct (digit_run_starts s Hrun) as (c & s' & -> & Hc).
    unfold digits. rewrite Hc. by apply digits_loop_run.
Qed.

Ltac char_cases c :=
  destruct c as [[] [] [] [] [] [] [] []]; try discriminate; try reflexivity.

Lemma signed_digits_decimal (s : string) :
  (∃ m, digits (sign s).2 = Some (m, "")) <-> decimal_text s.
Proof.
  unfold decimal_text. split.
  - intros [m Hdigits]. destruct (sign s) as [neg s1] eqn:Hsign.
    simpl in Hdigits.
    assert (digit_run s1) as Hrun by (apply digits_run; eauto).
    unfold sign in Hsign. destruct s as [|c s].
    { by simplify_eq/=. }
    destruct (decide (c = "-"%char)) as [->|Hminus].
    { simplify_eq. exists "-", s1. set_solver. }
    destruct (decide (c = "+"%char)) as [->|Hplus].
    { simplify_eq. exists "+", s1. set_solver. }
    assert (s1 = String c s) as ->.
    { destruct c as [[] [] [] [] [] [] [] []]; by simplify_eq. }
    exists "", (String c s). set_solver.
  - intros (sg & ds & -> & Hsg & Hrun).
    destruct (digit_run_starts ds Hrun) as (c & s' & -> & Hc).
    apply digits_run in Hrun as [n Hn].
    assert (sign (String c s') = (false, String c s')) as Hnosign.
    { destruct c as [[] [] [] [] [] [] [] []]; by simplify_eq. }
    repeat (apply elem_of_cons in Hsg as [->|Hsg]); [| | |by apply elem_of_nil in Hsg].
    + change ("" +:+ String c s') with (String c s'). rewrite Hnosign. eauto.
    + change (sign ("+" +:+ String c s')) with (false, String c s'). eauto.
    + change (sign ("-" +:+ String c s')) with (true, String c s'). eauto.
Qed.

Lemma count_digits_sign (s : string) :
  count_digits (sign s).2 = count_digits s.
Proof. destruct s as [|c s]; [done|]. char_cases c. Qed.

Lemma int_literal_decimal (s : string) :
  is_Some (int_literal s) <->
  decimal_text s ∧ (count_digits s <= int_max_str_digits)%nat.
Proof.
  unfold int_literal.
  pose proof (count_digits_sign s) as Hcount.
  pose proof (signed_digits_decimal s) as Htext.
  destruct (sign s) as [neg s1]. simpl in Hcount, Htext.
  rewrite <- Hcount, <- Htext.
  destruct (digits s1) as [[m [|c r]]|].
  - destruct (Nat.ltb_spec int_max_str_digits (count_digits s1)).
    + split; [by intros [? [=]]|]. intros [_ ?]. lia.
    + split; [|by eauto]. intros _. split; [by eauto|lia].
  - split; [by intros [? [=]]|]. by intros [[? [=]] _].
  - split; [by intros [? [=]]|]. by intros [[? [=]] _].
Qed.

Lemma count_digits_lstrip (space : ascii -> bool) (s : string) :
  (∀ c, space c = true -> is_digit c = false) ->
  count_digits (lstrip space s) = count_digits s.
Proof.
  intros Hspace. induction s as [|c s IH]; [done|]. simpl.
  destruct (space c) eqn:Hc; [|done]. by rewrite (Hspace c Hc), IH.
Qed.

Lemma count_digits_rstrip (space : ascii -> bool) (s : string) :
  (∀ c, space c = true -> is_digit c = false) ->
  count_digits (rstrip space s) = count_digits s.
Proof.
  intros Hspace. induction s as [|c s IH]; [done|]. simpl.
  destruct (rstrip space s) as [|d r].
  - simpl in IH. rewrite <- IH.
    destruct (space c) eqn:Hc; [|done]. by rewrite (Hspace c Hc).
  - by rewrite <- IH.
Qed.

Lemma count_digits_strip (space : ascii -> bool) (s : string) :
  (∀ c, space c = true -> is_digit c = false) ->
  count_digits (strip space s) = count_digits s.
Proof.
  intros Hspace. unfold strip.
  by rewrite count_digits_rstrip, count_digits_lstrip.
Qed.

Lemma text_space_no_digit (c : ascii) :
  is_text_space c = true -> is_digit c = false.
Proof. intros Hc. revert Hc. char_cases c. Qed.

Lemma ascii_space_no_digit (c : ascii) :
  is_ascii_space c = true -> is_digit c = false.
Proof. intros Hc. revert Hc. char_cases c. Qed.

Lemma validate_type_integer (py : interpreter) (otherwise : value -> result bool)
    (v : value) (field_type : string) :
  str_in field_type integer_types = true ->
  validate_type_with py otherwise v field_type =
    try_except (_ ← int v; Return true) is_ValueError_or_TypeError (Return false).
Proof.
  intros Hin%str_in_true. unfold validate_type_with, integer_types in *.
  repeat (apply elem_of_cons in Hin as [->|Hin]); try done.
  by apply elem_of_nil in Hin.
Qed.

Lemma int_integer_like (v : value) :
  is_infinite v = false ->
  match int v with
  | Return _ => integer_like v
  | Raise e => is_ValueError_or_TypeError e = true ∧ ¬ integer_like v
  end.
Proof.
  intros Hfinite. destruct v as [|b|n|f|s|s|l|l|l|l]; simpl;
    try (split; [done|by inversion 1]); try by constructor.
  - destruct f; try done; simpl; try by constructor.
    split; [done|by inversion 1].
  - pose proof (int_literal_decimal (strip is_text_space s)) as Hlit.
    rewrite (count_digits_strip _ _ text_space_no_digit) in Hlit.
    destruct (int_literal _).
    + destruct Hlit as [[Htext Hcount] _]; [by eauto|]. by constructor.
    + split; [done|]. inversion 1 as [| | | |? Htext Hcount|]; subst.
      destruct Hlit as [_ [? [=]]]. done.
  - pose proof (int_literal_decimal (strip is_ascii_space s)) as Hlit.
    rewrite (count_digits_strip _ _ ascii_space_no_digit) in Hlit.
    destruct (int_literal _).
    + destruct Hlit as [[Htext Hcount] _]; [by eauto|]. by constructor.
    + split; [done|]. inversion 1 as [| | | | |? Htext Hcount]; subst.
      destruct Hlit as [_ [? [=]]]. done.
Qed.

(** C5, as amended.  With a type of the integer class, a value other than
    an infinite float is coercible exactly when [int] converts it: an
    integer or a boolean, a float that is not NaN (whole or not: the
    fraction is dropped), or a [str] or [bytes] holding, between optional
    white space, an optional sign and decimal digits, with single
    underscores allowed between digits and no more than 4300 digits, the
    interpreter's default limit on the conversion.  Every other value is
    not coercible. *)
Theorem int_coercible (py : interpreter) (v : value) (field_type : string) :
  str_in field_type integer_types = true ->
  is_infinite v = false ->
  (schema_val.validate_type py v field_type = Return true <-> integer_like v) ∧
  (schema_val.validate_type py v field_type = Return false <-> ¬ integer_like v).
Proof.
  intros Htype Hfinite. unfold schema_val.validate_type.
  rewrite validate_type_integer by done.
  pose proof (int_integer_like v Hfinite) as Hint.
  destruct (int v) as [n|e]; simpl.
  - split; [done|]. split; [done|tauto].
  - destruct Hint as [-> Hnot]. split; [split; [done|tauto]|done].
Qed.

Lemma int_coercible_witness :
  (schema_val.validate_type utc_host (VStr " -1_000 ") "BIGINT" = Return true <->
   integer_like (VStr " -1_000 ")) ∧
  (schema_val.validate_type utc_host (VStr " -1_000 ") "BIGINT" = Return false <->
   ¬ integer_like (VStr " -1_000 ")).
Proof. apply (int_coercible utc_host (VStr " -1_000 ") "BIGINT"); reflexivity. Defined.

(** The case C5 leaves out: [int] of an infinite float raises
    [OverflowError], which the [except] clause of [validate_type] does not
    list, so the exception leaves [validate_type]. *)
Lemma infinite_float_escapes (py : interpreter) (sg : bool) (field_type : string) :
  str_in field_type integer_types = true ->
  schema_val.validate_type py (VFloat (S754_infinity sg)) field_type =
    Raise OverflowError.
Proof.
  intros Htype. unfold schema_val.validate_type.
  by rewrite validate_type_integer.
Qed.

(** C5, as stated, fails: [30.5] is neither integral nor a decimal string,
    yet it is coercible to INT64, since [int(30.5)] is [30]. *)
Lemma fractional_number_coercible :
  ¬ integral_or_decimal (VFloat float_30_5) ∧
  int (VFloat float_30_5) = Return 30 ∧
  schema_val.validate_type utc_host (VFloat float_30_5) "INT64" = Return true.
Proof. split_and!; [by vm_compute|done..]. Qed.

(** ** The matcher finds matches *)

Lemma repeat_class_sound {A} (p : ascii -> bool) (lo : nat) (hi : option nat)
    (s : string) (k : string -> option A) (x : A) :
  repeat_class p lo hi s k = Some x ->
  ∃ run rest, s = run +:+ rest ∧ all_chars p run = true ∧
    (lo <= String.length run)%nat ∧
    (∀ h, hi = Some h -> (String.length run <= h)%nat) ∧
    k rest = Some x.
Proof.
  assert (∀ s', match lo with O => k s' | S _ => None end = Some x ->
    ∃ run rest, s' = run +:+ rest ∧ all_chars p run = true ∧
      (lo <= String.length run)%nat ∧
      (∀ h, hi = Some h -> (String.length run <= h)%nat) ∧ k rest = Some x)
    as Hstop.
  { intros s' Hk. destruct lo; [|done]. exists "", s'. simpl.
    split_and!; auto with lia. }
  revert lo hi Hstop. induction s as [|c s IH]; intros lo hi Hstop; simpl;
    [by apply Hstop|].
  destruct (p c && negb (bool_decide (hi = Some 0%nat))) eqn:Htake;
    [|by apply Hstop].
  apply andb_prop in Htake as [Hc Hhi%negb_true_iff%bool_decide_eq_false].
  destruct (repeat_class p (pred lo) (pred <$> hi) s k) as [y|] eqn:Hrec;
    [|by apply Hstop].
  intros [= ->]. apply IH in Hrec as (run & rest & -> & Hrun & Hlo & Hbound & Hk).
  - exists (String c run), rest. simpl. rewrite Hc, Hrun.
    split_and!; [done|done|lia| |done].
    intros h ->. destruct h as [|h]; [done|].
    specialize (Hbound h eq_refl). lia.
  - intros s' Hk. destruct (pred lo) eqn:Hpred; [|done].
    exists "", s'. simpl. split_and!; auto with lia.
Qed.

Lemma exec_sound {A} (r : regex) (s : string) (caps : captures)
    (k : string -> captures -> option A) (x : A) :
  exec r s caps k = Some x ->
  ∃ rest caps', matches r s caps rest caps' ∧ k rest caps' = Some x.
Proof.
  revert s caps k.
  induction r as [|p|r1 IH1 r2 IH2|r1 IH1 r2 IH2|p lo hi|r IH|g r IH|];
    intros s caps k; simpl.
  - eauto using matches.
  - destruct s as [|c s]; [done|]. destruct (p c) eqn:Hc; [|done].
    eauto using matches.
  - intros (s1 & caps1 & Hm1 & (s2 & caps2 & Hm2 & Hk)%IH2)%IH1.
    eauto using matches.
  - destruct (exec r1 s caps k) as [y|] eqn:Hleft.
    + intros [= ->]. apply IH1 in Hleft as (rest & caps' & ? & ?).
      eauto using matches.
    + intros (rest & caps' & ? & ?)%IH2. eauto using matches.
  - intros (run & rest & -> & ? & ? & ? & ?)%repeat_class_sound.
    eauto using matches.
  - destruct (exec r s caps k) as [y|] eqn:Hsome.
    + intros [= ->]. apply IH in Hsome as (rest & caps' & ? & ?).
      eauto using matches.
    + eauto using matches.
  - intros (rest & caps' & ? & ?)%IH. eauto using matches.
  - destruct s as [|c [|c' s]]; [eauto using matches| |done].
    destruct (code c =? 10)%N eqn:Hc; [|done].
    apply N.eqb_eq in Hc. eauto using matches.
Qed.

Lemma match_prefix_sound (r : regex) (s : string) (caps : captures)
    (rest : string) :
  match_prefix r s = Some (caps, rest) -> matches r s [] rest caps.
Proof.
  unfold match_prefix. intros (? & ? & ? & [= -> ->])%exec_sound. done.
Qed.

(** ** Characters *)

Lemma digit_no_sign (c : ascii) (s : string) :
  is_digit c = true -> sign (String c s) = (false, String c s).
Proof. intros Hc. revert Hc. char_cases c. Qed.

Lemma digit_no_space (c : ascii) :
  is_digit c = true -> is_space c = false ∧ is_text_space c = false.
Proof. intros Hc. revert Hc. char_cases c; intros _; by split. Qed.

Lemma ignorecase_dash (c : ascii) :
  Ascii.eqb (lower_char c) (lower_char "-") = true -> c = "-"%char.
Proof. char_cases c. Qed.

Lemma between_digit (lo hi c : ascii) :
  is_digit lo = true -> is_digit hi = true ->
  in_range (code lo) (code hi) c = true ->
  is_digit c = true ∧ digit_value lo <= digit_value c <= digit_value hi.
Proof.
  unfold is_digit, in_range, digit_value.
  rewrite !andb_true_iff, !N.leb_le. lia.
Qed.

Lemma length_append (s t : string) :
  String.length (s +:+ t) = (String.length s + String.length t)%nat.
Proof. induction s as [|c s IH]; [done|]. simpl. by rewrite IH. Qed.

Lemma consumed_app (run rest : string) : consumed (run +:+ rest) rest = run.
Proof.
  unfold consumed. rewrite length_append.
  replace (String.length run + String.length rest - String.length rest)%nat
    with (String.length run) by lia.
  induction run as [|c run IH]; [by destruct rest|]. simpl. by rewrite IH.
Qed.

Lemma consumed_1 (a : ascii) (r : string) : consumed (String a r) r = String a "".
Proof. apply (consumed_app (String a "")). Qed.

Lemma consumed_2 (a b : ascii) (r : string) :
  consumed (String a (String b r)) r = String a (String b "").
Proof. apply (consumed_app (String a (String b ""))). Qed.

Lemma consumed_4 (a b c d : ascii) (r : string) :
  consumed (String a (String b (String c (String d r)))) r =
  String a (String b (String c (String d ""))).
Proof. apply (consumed_app (String a (String b (String c (String d ""))))). Qed.

(** ** [int] on the text of the groups *)

Lemma int_year_text (t : string) (n : Z) : year_text t n -> int (VStr t) = Return n.
Proof.
  destruct 1 as [a b c d Ha Hb Hc Hd]. unfold int, strip. simpl.
  destruct (digit_no_space a Ha) as [_ ->], (digit_no_space b Hb) as [_ Hb'],
    (digit_no_space c Hc) as [_ Hc'], (digit_no_space d Hd) as [_ Hd'].
  simpl. rewrite Hb', Hc', Hd'. unfold int_literal.
  rewrite digit_no_sign by done. unfold digits. simpl. rewrite Ha, Hb, Hc, Hd.
  f_equal; lia.
Qed.

Lemma int_short_number (t : string) (n : Z) :
  short_number t n -> int (VStr t) = Return n.
Proof.
  destruct 1 as [c Hc|c d Hc Hd]; unfold int, strip; simpl.
  - destruct (digit_no_space c Hc) as [_ ->]. simpl.
    destruct (digit_no_space c Hc) as [_ ->]. unfold int_literal.
    rewrite digit_no_sign by done. unfold digits. simpl. rewrite Hc.
    f_equal; lia.
  - destruct (digit_no_space c Hc) as [_ Hc'], (digit_no_space d Hd) as [_ Hd'].
    rewrite Hc'. simpl. rewrite Hd'. unfold int_literal.
    rewrite digit_no_sign by done. unfold digits. simpl. rewrite Hc, Hd.
    f_equal; lia.
Qed.

Lemma int_space_digit (c : ascii) :
  is_digit c = true ->
  int (VStr (String " " (String c ""))) = Return (digit_value c).
Proof.
  intros Hc. unfold int, strip. simpl.
  destruct (digit_no_space c Hc) as [_ Hc']. rewrite Hc'. simpl. rewrite Hc'.
  unfold int_literal. rewrite digit_no_sign by done. unfold digits. simpl.
  rewrite Hc. f_equal; lia.
Qed.


Lemma pattern_date (py : interpreter) :
  pattern py false "%Y-%m-%d" = Some date_regex.
Proof. reflexivity. Qed.

Ltac invert_matches :=
  repeat match goal with
  | H : matches Eps _ _ _ _ |- _ => inversion H; clear H; subst
  | H : matches (Chr _) _ _ _ _ |- _ => inversion H; clear H; subst
  | H : matches (Seq _ _) _ _ _ _ |- _ => inversion H; clear H; subst
  | H : matches (Group _ _) _ _ _ _ |- _ => inversion H; clear H; subst
  | H : matches (Alt _ _) _ _ _ _ |- _ => inversion H; clear H; subst
  | H : matches (Opt _) _ _ _ _ |- _ => inversion H; clear H; subst
  end.

Lemma in_range_bounds (lo hi : N) (c : ascii) :
  in_range lo hi c = true -> (lo <= code c <= hi)%N.
Proof. unfold in_range. rewrite andb_true_iff, !N.leb_le. done. Qed.

Lemma bounds_digit (lo hi : N) (c : ascii) :
  (48 <= lo)%N -> (hi <= 57)%N -> (lo <= code c <= hi)%N ->
  is_digit c = true ∧ Z.of_N lo - 48 <= digit_value c <= Z.of_N hi - 48.
Proof.
  unfold is_digit, in_range, digit_value. rewrite andb_true_iff, !N.leb_le. lia.
Qed.

Ltac class_bounds :=
  repeat match goal with
  | H : in_range _ _ ?c = true |- _ =>
      apply in_range_bounds in H; simpl in H;
      apply bounds_digit in H as [? ?]; [|lia..]
  end.

Lemma month_alt1 (c : ascii) :
  in_range (code "0") (code "2") c = true ->
  month_text (String "1" (String c "")) (10 + digit_value c).
Proof.
  intros H. class_bounds. split; [|simpl in *; lia].
  by apply (two_digits "1" c).
Qed.

Lemma month_alt2 (c : ascii) :
  in_range (code "1") (code "9") c = true ->
  month_text (String "0" (String c "")) (digit_value c).
Proof.
  intros H. class_bounds. split; [|simpl in *; lia].
  by apply (two_digits "0" c).
Qed.

Lemma month_alt3 (c : ascii) :
  in_range (code "1") (code "9") c = true ->
  month_text (String c "") (digit_value c).
Proof. intros H. class_bounds. split; [by constructor|simpl in *; lia]. Qed.

Lemma day_alt1 (c : ascii) :
  in_range (code "0") (code "1") c = true ->
  day_text (String "3" (String c "")) (30 + digit_value c).
Proof.
  intros H. class_bounds. left. split; [|simpl in *; lia].
  by apply (two_digits "3" c).
Qed.

Lemma day_alt2 (c d : ascii) :
  in_range (code "1") (code "2") c = true -> is_digit d = true ->
  day_text (String c (String d "")) (10 * digit_value c + digit_value d).
Proof.
  intros H Hd. class_bounds. left. split; [by constructor|].
  pose proof (bounds_digit 48 57 d) as Hb. unfold is_digit, in_range in Hd.
  rewrite andb_true_iff, !N.leb_le in Hd. simpl in *. lia.
Qed.

Lemma day_alt3 (c : ascii) :
  in_range (code "1") (code "9") c = true ->
  day_text (String "0" (String c "")) (digit_value c).
Proof.
  intros H. class_bounds. left. split; [|simpl in *; lia].
  by apply (two_digits "0" c).
Qed.

Lemma day_alt4 (c : ascii) :
  in_range (code "1") (code "9") c = true ->
  day_text (String c "") (digit_value c).
Proof. intros H. class_bounds. left. split; [by constructor|simpl in *; lia]. Qed.

Lemma day_alt5 (c : ascii) :
  in_range (code "1") (code "9") c = true ->
  day_text (String " " (String c "")) (digit_value c).
Proof. intros H. class_bounds. right. exists c. simpl in *. split_and!; auto; lia. Qed.

Lemma int_month_text (t : string) (n : Z) : month_text t n -> int (VStr t) = Return n.
Proof. intros [? _]. by apply int_short_number. Qed.

Lemma int_day_text (t : string) (n : Z) : day_text t n -> int (VStr t) = Return n.
Proof.
  intros [[? _]|(c & -> & ? & -> & _)];
    [by apply int_short_number|by apply int_space_digit].
Qed.

Lemma strptime_date_sound (py : interpreter) (s : string) (dt : datetime) :
  strptime py (VStr s) "%Y-%m-%d" = Return dt -> date_text s.
Proof.
  unfold strptime. rewrite pattern_date.
  destruct (match_prefix date_regex s) as [[found [|? ?]]|] eqn:Hmatch; try done.
  apply match_prefix_sound in Hmatch.
  unfold date_regex in Hmatch.
  cbv [year_re month_re day_re seq alt chr chr_ignorecase between digit]
    in Hmatch.
  invert_matches.
  all: repeat match goal with
    | H : Ascii.eqb (lower_char _) (lower_char "-") = true |- _ =>
        apply ignorecase_dash in H; subst
    | H : Ascii.eqb _ _ = true |- _ => apply Ascii.eqb_eq in H; subst
    end.
  all: rewrite ?consumed_1, ?consumed_2, ?consumed_4.
  all: match goal with
    | |- context [[("d", ?dt); ("m", ?mt); ("Y", ?yt)]] =>
        assert (∃ n, year_text yt n) as [ny Hy] by (eexists; by constructor);
        assert (∃ n, month_text mt n) as [nm Hm]
          by (eexists; first [by eapply month_alt1|by eapply month_alt2
                             |by eapply month_alt3]);
        assert (∃ n, day_text dt n) as [nd Hd]
          by (eexists; first [by eapply day_alt1|by eapply day_alt2
                             |by eapply day_alt3|by eapply day_alt4
                             |by eapply day_alt5]);
        change (group_int _ "Y" 1900) with (int (VStr yt));
        change (group_int _ "m" 1) with (int (VStr mt));
        change (group_int _ "d" 1) with (int (VStr dt));
        rewrite (int_year_text _ _ Hy), (int_month_text _ _ Hm),
          (int_day_text _ _ Hd);
        cbn -[valid_date]; unfold new_datetime;
        destruct (valid_date ny nm nd) eqn:Hvalid; [intros _|done];
        by exists yt, mt, dt, ny, nm, nd
    end.
Qed.

(** ** The date pattern accepts every date text *)

Lemma is_digit_cases (c : ascii) :
  is_digit c = true ->
  c ∈ ["0"; "1"; "2"; "3"; "4"; "5"; "6"; "7"; "8"; "9"]%char.
Proof.
  intros Hc. revert Hc. char_cases c; intros _;
    repeat first [apply list_elem_of_here | apply list_elem_of_further].
Qed.

Ltac digit_cases H :=
  apply is_digit_cases in H;
  repeat (apply elem_of_cons in H as [->|H]); [..|by apply elem_of_nil in H].

Ltac in_list :=
  repeat first [apply list_elem_of_here | apply list_elem_of_further].

Lemma month_text_cases (t : string) (n : Z) : month_text t n -> t ∈ month_texts.
Proof.
  intros [[c Hc|c d Hc Hd] Hn].
  - digit_cases Hc; cbv -[Z.le] in Hn; first [lia | in_list].
  - digit_cases Hc; digit_cases Hd; cbv -[Z.le] in Hn; first [lia | in_list].
Qed.

Lemma day_text_cases (t : string) (n : Z) : day_text t n -> t ∈ day_texts.
Proof.
  intros [[[c Hc|c d Hc Hd] Hn]|(c & -> & Hc & -> & Hn)].
  - digit_cases Hc; cbv -[Z.le] in Hn; first [lia | in_list].
  - digit_cases Hc; digit_cases Hd; cbv -[Z.le] in Hn; first [lia | in_list].
  - digit_cases Hc; cbv -[Z.le] in Hn; first [lia | in_list].
Qed.

Lemma exec_seq {A} (r1 r2 : regex) (s : string) (caps : captures)
    (k : string -> captures -> option A) :
  exec (Seq r1 r2) s caps k = exec r1 s caps (fun s' caps' => exec r2 s' caps' k).
Proof. reflexivity. Qed.

Lemma exec_year {A} (y : string) (n : Z) (rest : string) (caps : captures)
    (k : string -> captures -> option A) :
  year_text y n ->
  exec year_re (y +:+ rest) caps k =
    k rest (("Y", y) :: caps).
Proof.
  destruct 1 as [a b c d Ha Hb Hc Hd]. cbv [String.append].
  cbn -[consumed is_digit]. by rewrite Ha, Hb, Hc, Hd, consumed_4.
Qed.

Lemma exec_month_dash {A} (m r : string) (caps : captures)
    (k : string -> captures -> option A) (x : A) :
  m ∈ month_texts ->
  k (String "-" r) (("m", m) :: caps) = Some x ->
  exec month_re (m +:+ String "-" r) caps k = Some x.
Proof.
  intros Hin Hk. unfold month_texts in Hin.
  repeat (apply elem_of_cons in Hin as [->|Hin]); [..|by apply elem_of_nil in Hin];
    cbv [String.append]; cbn -[consumed];
    by rewrite ?consumed_1, ?consumed_2, Hk.
Qed.

Lemma exec_day_end {A} (d : string) (caps : captures)
    (k : string -> captures -> option A) (x : A) :
  d ∈ day_texts ->
  k "" (("d", d) :: caps) = Some x ->
  exec day_re d caps k = Some x.
Proof.
  intros Hin Hk. unfold day_texts, month_texts in Hin. simpl in Hin.
  repeat (apply elem_of_cons in Hin as [->|Hin]); [..|by apply elem_of_nil in Hin];
    cbv [String.append]; cbn -[consumed];
    by rewrite ?consumed_1, ?consumed_2, Hk.
Qed.

Lemma match_date_text (y m d : string) (ny nm nd : Z) :
  year_text y ny -> month_text m nm -> day_text d nd ->
  match_prefix date_regex (y +:+ "-" +:+ m +:+ "-" +:+ d) =
    Some ([("d", d); ("m", m); ("Y", y)], "").
Proof.
  intros Hy Hm%month_text_cases Hd%day_text_cases.
  unfold match_prefix, date_regex.
  rewrite exec_seq, (exec_year y ny) by done. rewrite exec_seq.
  change ("-" +:+ m +:+ "-" +:+ d) with (String "-" (m +:+ String "-" d)).
  change (exec (chr_ignorecase "-") (String "-" ?r) ?c ?k) with (k r c).
  cbv beta. rewrite exec_seq. apply exec_month_dash; [done|].
  rewrite exec_seq.
  change (exec (chr_ignorecase "-") (String "-" ?r) ?c ?k) with (k r c).
  cbv beta. rewrite exec_seq. by apply exec_day_end.
Qed.

Lemma strptime_date_complete (py : interpreter) (s : string) :
  date_text s -> ∃ dt, strptime py (VStr s) "%Y-%m-%d" = Return dt.
Proof.
  intros (y & m & d & ny & nm & nd & -> & Hy & Hm & Hd & Hvalid).
  unfold strptime. rewrite pattern_date, (match_date_text y m d ny nm nd) by done.
  change (group_int _ "Y" 1900) with (int (VStr y)).
  change (group_int _ "m" 1) with (int (VStr m)).
  change (group_int _ "d" 1) with (int (VStr d)).
  rewrite (int_year_text _ _ Hy), (int_month_text _ _ Hm), (int_day_text _ _ Hd).
  cbn -[valid_date]. unfold new_datetime. rewrite Hvalid. eauto.
Qed.

(** ** The DATE class (C7) *)

Lemma group_int_raises (caps : captures) (g : string) (dflt : Z) (e : exn) :
  group_int caps g dflt = Raise e -> e = ValueError.
Proof.
  unfold group_int. destruct (group caps g) as [text|]; [|done]. simpl.
  destruct (int_literal _); [done|]. by intros [= <-].
Qed.

Lemma new_datetime_raises (y m d H M S us : Z) (e : exn) :
  new_datetime y m d H M S us = Raise e -> e = ValueError.
Proof. unfold new_datetime. destruct (_ && _); [done|]. by intros [= <-]. Qed.

(** [strptime] raises nothing but [ValueError] and [TypeError]. *)
Lemma strptime_raises (py : interpreter) (v : value) (fmt : string) (e : exn) :
  strptime py v fmt = Raise e -> is_ValueError_or_TypeError e = true.
Proof.
  unfold strptime. destruct v; try by intros [= <-].
  destruct (pattern py false fmt); [|by intros [= <-]].
  destruct (match_prefix _ _) as [[found [|? ?]]|]; try by intros [= <-].
  repeat match goal with
  | |- context [group_int ?c ?g ?d] =>
      let Hg := fresh in
      destruct (group_int c g d) eqn:Hg;
        [|apply group_int_raises in Hg as ->; by intros [= <-]]
  end.
  cbn -[new_datetime]. intros He%new_datetime_raises. by subst.
Qed.

Lemma validate_type_date (py : interpreter) (otherwise : value -> result bool)
    (v : value) :
  validate_type_with py otherwise v "DATE" =
    try_except (_ ← strptime py v "%Y-%m-%d"; Return true)
      is_ValueError_or_TypeError (Return false).
Proof. reflexivity. Qed.

(** C7, as amended.  A value is coercible to DATE exactly when it is a
    string that [strptime] reads with ["%Y-%m-%d"]: a year of four digits,
    a month and a day of one or two digits (zero padding is optional, and a
    one-digit day may follow a space) separated by hyphens and nothing else
    around them, which together denote a date of the calendar.  Any other
    value is not coercible; the check never raises. *)
Theorem date_coercible (py : interpreter) (v : value) :
  (schema_val.validate_type py v "DATE" = Return true <->
   ∃ s, v = VStr s ∧ date_text s) ∧
  (schema_val.validate_type py v "DATE" = Return false <->
   ¬ ∃ s, v = VStr s ∧ date_text s).
Proof.
  unfold schema_val.validate_type. rewrite validate_type_date.
  destruct (strptime py v "%Y-%m-%d") as [dt|e] eqn:Hparse; simpl.
  - assert (∃ s, v = VStr s ∧ date_text s) as Hdate.
    { destruct v; try done. eauto using strptime_date_sound. }
    split; [done|]. split; [done|tauto].
  - rewrite (strptime_raises _ _ _ _ Hparse).
    assert (¬ ∃ s, v = VStr s ∧ date_text s) as Hdate.
    { intros (s & -> & [dt Hdt]%(strptime_date_complete py)). congruence. }
    split; [split; [done|tauto]|done].
Qed.

(** C7, as stated, fails: "2023-7-1" has no two-digit month or day, yet it
    is coercible to DATE. *)
Lemma unpadded_date_coercible :
  ¬ padded_date_text "2023-7-1" ∧
  schema_val.validate_type utc_host (VStr "2023-7-1") "DATE" = Return true.
Proof.
  split; [|by vm_compute].
  intros (y & m & d & ny & nm & nd & Heq & Hy & Hm & Hd & _).
  destruct Hy. by destruct m as [|? [|? [|? ?]]].
Qed.

(** ** The ISO pattern and the formats of [strptime] exclude each other *)

Lemma matches_exactly (p : ascii -> bool) (n : nat) (s rest : string)
    (caps caps' : captures) :
  matches (exactly n p) s caps rest caps' ->
  ∃ run, s = run +:+ rest ∧ all_chars p run = true ∧
         String.length run = n ∧ caps' = caps.
Proof.
  unfold exactly. inversion 1; subst.
  match goal with H : ∀ h, Some n = Some h -> _ |- _ =>
    specialize (H n eq_refl) end.
  eexists. split_and!; [done..|lia|done].
Qed.

Lemma run_of_2 (p : ascii -> bool) (run : string) :
  all_chars p run = true -> String.length run = 2%nat ->
  ∃ a b, run = String a (String b "") ∧ p a = true ∧ p b = true.
Proof.
  destruct run as [|a [|b [|? ?]]]; try done. simpl.
  rewrite andb_true_r. intros [? ?]%andb_prop _. eauto.
Qed.

Lemma run_of_4 (p : ascii -> bool) (run : string) :
  all_chars p run = true -> String.length run = 4%nat ->
  ∃ a b c d, run = String a (String b (String c (String d ""))) ∧
    p a = true ∧ p b = true ∧ p c = true ∧ p d = true.
Proof.
  destruct run as [|a [|b [|c [|d [|? ?]]]]]; try done. simpl.
  rewrite andb_true_r, !andb_true_iff. intros (? & ? & ? & ?) _. eauto 10.
Qed.

(** A text the ISO pattern matches starts with a padded date and a 'T'. *)
Lemma iso_pattern_shape (s rest : string) (caps : captures) :
  matches iso_pattern s [] rest caps ->
  ∃ a b c d e f g h s',
    s = String a (String b (String c (String d (String "-" (String e (String f
          (String "-" (String g (String h (String "T" s')))))))))) ∧
    is_digit a = true ∧ is_digit b = true ∧ is_digit c = true ∧
    is_digit d = true ∧ is_digit e = true ∧ is_digit f = true ∧
    is_digit g = true ∧ is_digit h = true.
Proof.
  unfold iso_pattern. cbn [seq].
  intros Hm.
  repeat match goal with
  | H : matches (Seq (exactly _ _) _) _ _ _ _ |- _ =>
      inversion H; clear H; subst
  | H : matches (Seq (chr _) _) _ _ _ _ |- _ =>
      inversion H; clear H; subst
  | H : matches (exactly _ _) _ _ _ _ |- _ =>
      apply matches_exactly in H as (? & -> & ? & ? & ->)
  | H : matches (chr _) _ _ _ _ |- _ =>
      inversion H; clear H; subst
  | H : Ascii.eqb _ _ = true |- _ => apply Ascii.eqb_eq in H; subst
  end.
  repeat match goal with
  | H : all_chars _ ?r = true, H' : String.length ?r = 2%nat |- _ =>
      destruct (run_of_2 _ _ H H') as (? & ? & -> & ? & ?); clear H H'
  | H : all_chars _ ?r = true, H' : String.length ?r = 4%nat |- _ =>
      destruct (run_of_4 _ _ H H') as (? & ? & ? & ? & -> & ? & ? & ? & ?);
      clear H H'
  end.
  cbv [String.append]. eauto 20.
Qed.

Lemma date_then_inv (r : regex) (s rest : string) (caps : captures) :
  matches (date_then r) s [] rest caps ->
  ∃ y m d ny nm nd s',
    s = y +:+ "-" +:+ m +:+ "-" +:+ d +:+ s' ∧
    year_text y ny ∧ month_text m nm ∧ day_text d nd ∧
    matches r s' [("d", d); ("m", m); ("Y", y)] rest caps.
Proof.
  unfold date_then.
  cbv [year_re month_re day_re seq alt chr chr_ignorecase between digit].
  intros Hmatch. invert_matches.
  all: repeat match goal with
    | H : Ascii.eqb (lower_char _) (lower_char "-") = true |- _ =>
        apply ignorecase_dash in H; subst
    | H : Ascii.eqb _ _ = true |- _ => apply Ascii.eqb_eq in H; subst
    end.
  all: rewrite ?consumed_1, ?consumed_2, ?consumed_4 in *.
  all: match goal with
    | H : matches _ _ [("d", ?dt); ("m", ?mt); ("Y", ?yt)] _ _ |- _ =>
        assert (∃ n, year_text yt n) as [ny Hy] by (eexists; by constructor);
        assert (∃ n, month_text mt n) as [nm Hm]
          by (eexists; first [by eapply month_alt1|by eapply month_alt2
                             |by eapply month_alt3]);
        assert (∃ n, day_text dt n) as [nd Hd]
          by (eexists; first [by eapply day_alt1|by eapply day_alt2
                             |by eapply day_alt3|by eapply day_alt4
                             |by eapply day_alt5]);
        by exists yt, mt, dt, ny, nm, nd; eexists
    end.
Qed.

(** No text starts both as the ISO pattern wants and as the formats do. *)
Lemma iso_excludes_date_then (r : regex) (s rest1 rest2 : string)
    (caps1 caps2 : captures) :
  matches iso_pattern s [] rest1 caps1 ->
  matches (date_then (Seq (Rep is_space 1 None) r)) s [] rest2 caps2 ->
  False.
Proof.
  intros (a & b & c & d & e & f & g & h & s' & -> & Ha & Hb & Hc & Hd & He &
          Hf & Hg & Hh)%iso_pattern_shape
         (y & m & dd & ny & nm & nd & s'' & Heq & Hy & [Hm _] & Hday & Hrest)%date_then_inv.
  inversion Hrest as [| |? ? ? ? ? ? ? ? Hws _| | | | | | | |]; subst.
  inversion Hws as [| | | | |? ? ? run ? ? Hall Hlo _| | | | |]; subst.
  destruct run as [|w run]; [simpl in Hlo; lia|]. simpl in Hall.
  apply andb_prop in Hall as [Hw _].
  destruct Hy. destruct Hm as [x Hx|x1 x2 Hx1 Hx2].
  - cbv [String.append] in Heq. by simplify_eq.
  - destruct Hday as [[Hshort _]|(z & -> & Hz & _)];
      [inversion Hshort; subst|]; cbv [String.append] in Heq; simplify_eq.
    by rewrite (proj1 (digit_no_space _ Hh)) in Hw.
Qed.

Lemma pattern_timestamp_format (py : interpreter) (fmt : string) :
  fmt ∈ timestamp_formats ->
  ∃ r, pattern py false fmt = Some (date_then (Seq (Rep is_space 1 None) r)).
Proof.
  unfold timestamp_formats. intros Hin.
  repeat (apply elem_of_cons in Hin as [->|Hin]); [..|by apply elem_of_nil in Hin];
    eexists; reflexivity.
Qed.

Lemma strptime_str_raises (py : interpreter) (s fmt : string) (e : exn) :
  strptime py (VStr s) fmt = Raise e -> e = ValueError.
Proof.
  unfold strptime.
  destruct (pattern py false fmt); [|by intros [= <-]].
  destruct (match_prefix _ _) as [[found [|? ?]]|]; try by intros [= <-].
  repeat match goal with
  | |- context [group_int ?c ?g ?d] =>
      let Hg := fresh in
      destruct (group_int c g d) eqn:Hg;
        [|apply group_int_raises in Hg as ->; by intros [= <-]]
  end.
  cbn -[new_datetime]. by intros He%new_datetime_raises.
Qed.

Lemma iso_excludes_formats (py : interpreter) (s fmt : string) :
  is_Some (match_prefix iso_pattern s) ->
  fmt ∈ timestamp_formats ->
  strptime py (VStr s) fmt = Raise ValueError.
Proof.
  intros [[caps rest] Hiso%match_prefix_sound] Hfmt.
  destruct (strptime py (VStr s) fmt) as [dt|e] eqn:Hparse;
    [|by apply strptime_str_raises in Hparse as ->].
  exfalso. unfold strptime in Hparse.
  destruct (pattern_timestamp_format py fmt Hfmt) as [r Hr]. rewrite Hr in Hparse.
  destruct (match_prefix _ s) as [[found rest']|] eqn:Hmatch; [|done].
  apply match_prefix_sound in Hmatch. eauto using iso_excludes_date_then.
Qed.

Lemma fromisoformat_str_raises (s : string) (e : exn) :
  fromisoformat (VStr s) = Raise e -> e = ValueError.
Proof.
  unfold fromisoformat.
  destruct (match_prefix _ _) as [[found [|? ?]]|]; try by intros [= <-].
  repeat match goal with
  | |- context [group_int ?c ?g ?d] =>
      let Hg := fresh in
      destruct (group_int c g d) eqn:Hg;
        [|apply group_int_raises in Hg as ->; by intros [= <-]]
  end.
  cbn -[new_datetime]. destruct (_ <? _); [|by intros [= <-]].
  by intros He%new_datetime_raises.
Qed.

(** The nested [try] blocks of the TIMESTAMP branch are the chain. *)
Lemma timestamp_is_chain (py : interpreter) (v : value) :
  timestamp py v = timestamp_chain py v.
Proof.
  destruct v as [|b|n|f|s|s|l|l|l|l]; try reflexivity.
  unfold timestamp, timestamp_chain, timestamp_stages, stage_iso.
  cbn [fmap list_fmap timestamp_formats first_success re_match mbind result_bind].
  unfold stage_format at 1.
  destruct (match_prefix iso_pattern s) as [found|] eqn:Hiso.
  - rewrite (iso_excludes_formats py s "%Y-%m-%d %H:%M:%S.%f %Z");
      [|by rewrite Hiso|unfold timestamp_formats; set_solver].
    rewrite bool_decide_eq_true_2 by eauto.
    cbn -[strptime fromisoformat].
    destruct (fromisoformat (VStr (replace_char "Z" "+00:00" s))) as [dt|e];
      cbn -[strptime]; [done|].
    by destruct (is_ValueError e).
  - rewrite bool_decide_eq_false_2 by (by intros [? ?]). reflexivity.
Qed.

(** ** Zone names: "UTC" is always read *)

Lemma insert_by_length_keeps (w : string) (ws : list string) :
  utc_reachable ws -> utc_reachable (insert_by_length w ws).
Proof.
  intros (l1 & l2 & -> & Hlong).
  induction Hlong as [|a l1 Ha Hlong IH]; cbn [insert_by_length app].
  - change (String.length "utc") with 3%nat.
    destruct (3 <=? String.length w)%nat eqn:Hw.
    + exists [w], l2. split; [done|]. constructor; [|done]. by apply Nat.leb_le.
    + by exists [], (insert_by_length w l2).
  - destruct (String.length a <=? String.length w)%nat eqn:Hw.
    + apply Nat.leb_le in Hw. exists (w :: a :: l1), l2. split; [done|].
      repeat constructor; [lia|done..].
    + destruct IH as (l1' & l2' & -> & Hlong').
      exists (a :: l1'), l2'. split; [done|]. by constructor.
Qed.

Lemma insert_by_length_utc (ws : list string) :
  utc_reachable (insert_by_length "utc" ws).
Proof.
  induction ws as [|w ws IH]; cbn [insert_by_length].
  - by exists [], [].
  - change (String.length "utc") with 3%nat.
    destruct (String.length w <=? 3)%nat eqn:Hw.
    + by exists [], (w :: ws).
    + apply Nat.leb_gt in Hw. destruct IH as (l1 & l2 & -> & Hlong).
      exists (w :: l1), l2. split; [done|]. constructor; [lia|done].
Qed.

Lemma longest_first_utc (l : list string) :
  "utc" ∈ l -> utc_reachable (longest_first l).
Proof.
  induction l as [|a l IH]; [by intros ?%elem_of_nil|].
  intros [<-|Hin]%elem_of_cons; simpl.
  - apply insert_by_length_utc.
  - by apply insert_by_length_keeps, IH.
Qed.

Lemma zone_names_utc (py : interpreter) : utc_reachable (zone_names py).
Proof.
  apply longest_first_utc. apply elem_of_app. left.
  apply elem_of_remove_dups. set_solver.
Qed.

Lemma word_on_UTC {A} (w : string) (caps : captures)
    (k : string -> captures -> option A) :
  (3 <= String.length w)%nat ->
  exec (word_ignorecase w) "UTC" caps k = None ∨
  exec (word_ignorecase w) "UTC" caps k = k "" caps.
Proof.
  destruct w as [|a [|b [|c [|d w]]]]; simpl; try lia; intros _.
  - repeat match goal with |- context [if ?b then _ else _] => destruct b end;
      auto.
  - left. repeat match goal with |- context [if ?b then _ else _] => destruct b end;
      try done; by destruct w.
Qed.

Lemma zone_alternatives_UTC {A} (l1 l2 : list string) (caps : captures)
    (k : string -> captures -> option A) (x : A) :
  Forall (fun w => (3 <= String.length w)%nat) l1 ->
  k "" caps = Some x ->
  exec (match word_ignorecase <$> (l1 ++ "utc" :: l2) with
        | [] => Eps
        | r :: rs => alt r rs
        end) "UTC" caps k = Some x.
Proof.
  intros Hlong Hk. induction Hlong as [|a l1 Ha Hlong IH].
  - destruct l2 as [|w l2]; [by simpl|].
    cbn [app fmap list_fmap alt]. rewrite (eq_refl :
      exec (Alt (word_ignorecase "utc") _) "UTC" caps k =
      match exec (word_ignorecase "utc") "UTC" caps k with
      | Some y => Some y
      | None => exec _ "UTC" caps k
      end).
    change (exec (word_ignorecase "utc") "UTC" caps k) with (k "" caps).
    by rewrite Hk.
  - destruct (word_ignorecase <$> (l1 ++ "utc" :: l2)) as [|r rs] eqn:Htail.
    { by destruct l1. }
    change (word_ignorecase <$> ((a :: l1) ++ "utc" :: l2))
      with (word_ignorecase a :: (word_ignorecase <$> (l1 ++ "utc" :: l2))).
    rewrite Htail. cbn [alt exec].
    destruct (word_on_UTC a caps k Ha) as [->| ->]; [done|by rewrite Hk].
Qed.

Lemma zone_re_UTC {A} (py : interpreter) (caps : captures)
    (k : string -> captures -> option A) (x : A) :
  k "" (("Z", "UTC") :: caps) = Some x ->
  exec (zone_re (zone_names py)) "UTC" caps k = Some x.
Proof.
  intros Hk. destruct (zone_names_utc py) as (l1 & l2 & -> & Hlong).
  unfold zone_re. cbn [exec]. by apply zone_alternatives_UTC.
Qed.

Lemma first_alternative {A} (x y : option A) (v : A) :
  x = Some v -> match x with Some a => Some a | None => y end = Some v.
Proof. by intros ->. Qed.

(** One step of the matcher on a concrete text: the sub-expression is run
    against an opaque continuation, which is then put back. *)
Ltac exec_step :=
  rewrite exec_seq;
  match goal with
  | |- exec ?r ?s ?caps ?K = Some ?v =>
      let kk := fresh "kk" in
      let Hkk := fresh "Hkk" in
      remember K as kk eqn:Hkk;
      lazy; subst kk; cbv beta;
      repeat match goal with
      | |- match _ with Some _ => _ | None => _ end = Some _ =>
          apply first_alternative
      end
  end.

Lemma pattern_zoned (py : interpreter) :
  pattern py false "%Y-%m-%d %H:%M:%S %Z" = Some (zoned_regex (zone_names py)).
Proof. reflexivity. Qed.

Lemma strptime_UTC (py : interpreter) :
  strptime py (VStr "2023-07-10 02:15:25 UTC") "%Y-%m-%d %H:%M:%S %Z" =
    Return (Datetime 2023 7 10 2 15 25 0).
Proof.
  unfold strptime. rewrite pattern_zoned.
  assert (match_prefix (zoned_regex (zone_names py)) "2023-07-10 02:15:25 UTC" =
    Some ([("Z", "UTC"); ("S", "25"); ("M", "15"); ("H", "02");
           ("d", "10"); ("m", "07"); ("Y", "2023")], "")) as Hmatch.
  { unfold match_prefix, zoned_regex, date_then. do 12 exec_step.
    rewrite exec_seq. by apply zone_re_UTC. }
  rewrite Hmatch. reflexivity.
Qed.

(** ** The chain and its stages *)

Lemma first_success_spec (stages : list (value -> result unit)) (v : value) :
  (∀ stage e, stage ∈ stages -> stage v = Raise e -> e = ValueError) ->
  (first_success stages v = Return () ∧
   ∃ stage, stage ∈ stages ∧ stage v = Return ()) ∨
  (first_success stages v = Raise ValueError ∧
   ∀ stage, stage ∈ stages -> stage v = Raise ValueError).
Proof.
  induction stages as [|stage stages IH]; intros Hraise.
  - right. split; [done|]. by intros ? ?%elem_of_nil.
  - assert (∀ st e, st ∈ stages -> st v = Raise e -> e = ValueError) as Hrest
      by (intros st e Hin; apply Hraise; by right).
    destruct (stage v) as [[]|e] eqn:Hstage.
    + left. split; [|exists stage; split; [by left|done]].
      destruct stages; simpl; by rewrite Hstage.
    + assert (e = ValueError) as -> by (eapply Hraise; [by left|done]).
      destruct (IH Hrest) as [[Hchain (st & Hin & Hst)]|[Hchain Hall]].
      * left. split; [|exists st; split; [by right|done]].
        destruct stages; [by apply elem_of_nil in Hin|].
        cbn [first_success]. by rewrite Hstage.
      * right. split.
        -- destruct stages; cbn [first_success]; by rewrite Hstage.
        -- intros st [->|Hin]%elem_of_cons; auto.
Qed.

Lemma stage_str_raises (py : interpreter) (stage : value -> result unit)
    (s : string) (e : exn) :
  stage ∈ timestamp_stages py -> stage (VStr s) = Raise e -> e = ValueError.
Proof.
  unfold timestamp_stages. intros [->|Hin]%elem_of_cons.
  - unfold stage_iso. cbn [re_match mbind result_bind].
    destruct (bool_decide _); [|by intros [= <-]].
    cbn [replace_Z mbind result_bind]. unfold exec_.
    destruct (fromisoformat _) as [dt|e'] eqn:Hiso; [done|].
    apply fromisoformat_str_raises in Hiso as ->. by intros [= <-].
  - apply list_elem_of_fmap in Hin as (fmt & -> & _). unfold stage_format, exec_.
    destruct (strptime py (VStr s) fmt) as [dt|e'] eqn:Hparse; [done|].
    apply strptime_str_raises in Hparse as ->. by intros [= <-].
Qed.

Lemma stage_not_str (py : interpreter) (stage : value -> result unit) (v : value) :
  (∀ s, v ≠ VStr s) -> stage ∈ timestamp_stages py -> stage v = Raise TypeError.
Proof.
  unfold timestamp_stages. intros Hv [->|Hin]%elem_of_cons.
  - by destruct v; try done; destruct (Hv s).
  - apply list_elem_of_fmap in Hin as (fmt & -> & _).
    by destruct v; try done; destruct (Hv s).
Qed.

Lemma validate_type_timestamp (py : interpreter)
    (otherwise : value -> result bool) (v : value) :
  validate_type_with py otherwise v "TIMESTAMP" =
    try_except (_ ← timestamp py v; Return true)
      is_ValueError_or_TypeError (Return false).
Proof. reflexivity. Qed.

Lemma timestamp_coercible (py : interpreter) (v : value) :
  (schema_val.validate_type py v "TIMESTAMP" = Return true <->
   ∃ stage, stage ∈ timestamp_stages py ∧ stage v = Return ()) ∧
  (schema_val.validate_type py v "TIMESTAMP" = Return false <->
   ∀ stage, stage ∈ timestamp_stages py -> stage v ≠ Return ()).
Proof.
  unfold schema_val.validate_type.
  rewrite validate_type_timestamp, timestamp_is_chain. unfold timestamp_chain.
  assert ((∃ s, v = VStr s) ∨ (∀ s, v ≠ VStr s)) as [[s ->]|Hv']
    by (destruct v; eauto; by right).
  - destruct (first_success_spec (timestamp_stages py) (VStr s))
      as [[-> Hsome]|[-> Hnone]]; [by eauto using stage_str_raises|..]; simpl.
    + split; [done|]. split; [done|]. intros Hall.
      destruct Hsome as (st & Hin & Hst). by destruct (Hall st Hin).
    + split.
      * split; [done|]. intros (st & Hin & Hst). rewrite Hnone in Hst; done.
      * split; [|done]. intros _ st Hin. by rewrite Hnone.
  - assert (first_success (timestamp_stages py) v = Raise TypeError) as ->.
    { cbn [timestamp_stages first_success fmap list_fmap timestamp_formats].
      rewrite (stage_not_str py stage_iso v Hv'); [done|by left]. }
    simpl. split.
    + split; [done|]. intros (st & Hin & Hst).
      rewrite (stage_not_str py st v) in Hst; done.
    + split; [|done]. intros _ st Hin. by rewrite (stage_not_str py st v).
Qed.

Lemma timestamp_examples (py : interpreter) :
  schema_val.validate_type py (VStr "2023-07-01T08:15:30Z") "TIMESTAMP" =
    Return true ∧
  schema_val.validate_type py (VStr "2023-07-02T10:20:45+02:00") "TIMESTAMP" =
    Return true ∧
  schema_val.validate_type py (VStr "2023-07-10 02:15:25 UTC") "TIMESTAMP" =
    Return true ∧
  schema_val.validate_type py (VStr "2023-07-11 01:22:55") "TIMESTAMP" =
    Return true ∧
  schema_val.validate_type py (VStr "not-a-time") "TIMESTAMP" = Return false.
Proof.
  split_and!; try reflexivity.
  unfold schema_val.validate_type. rewrite validate_type_timestamp.
  unfold timestamp. rewrite strptime_UTC. reflexivity.
Qed.

(** C4.  Coercibility to TIMESTAMP is an ordered fallback chain: the
    nested [try] blocks of [validate_type] compute exactly the chain of the
    five dialects (ISO-8601 with ['Z'] read as ["+00:00"], then the four
    formats of [strptime] in their order), in which the first success wins
    and a [ValueError] hands over to the next.  So a value is coercible
    exactly when one of the five stages accepts it, and not coercible when
    all are exhausted.  The four sample strings are coercible and
    "not-a-time" is not, whatever the local time zone. *)
Theorem timestamp_fallback_chain (py : interpreter) (v : value) :
  timestamp py v = timestamp_chain py v ∧
  (schema_val.validate_type py v "TIMESTAMP" = Return true <->
   ∃ stage, stage ∈ timestamp_stages py ∧ stage v = Return ()) ∧
  (schema_val.validate_type py v "TIMESTAMP" = Return false <->
   ∀ stage, stage ∈ timestamp_stages py -> stage v ≠ Return ()) ∧
  schema_val.validate_type py (VStr "2023-07-01T08:15:30Z") "TIMESTAMP" =
    Return true ∧
  schema_val.validate_type py (VStr "2023-07-02T10:20:45+02:00") "TIMESTAMP" =
    Return true ∧
  schema_val.validate_type py (VStr "2023-07-10 02:15:25 UTC") "TIMESTAMP" =
    Return true ∧
  schema_val.validate_type py (VStr "2023-07-11 01:22:55") "TIMESTAMP" =
    Return true ∧
  schema_val.validate_type py (VStr "not-a-time") "TIMESTAMP" = Return false.
Proof.
  split; [apply timestamp_is_chain|].
  destruct (timestamp_coercible py v) as [Htrue Hfalse].
  split; [exact Htrue|]. split; [exact Hfalse|]. apply timestamp_examples.
Qed.

(** ** The token parser (C8, C9) *)

Lemma core_evaluator_extends : extends_core core_evaluator.
Proof. intros v r Hcore. unfold core_evaluator. by rewrite Hcore. Qed.

Section ParseFacts.
Variable literal_eval : value -> result value.

Lemma parse_item_caught (item : value) (e : exn) :
  literal_eval item = Raise e ->
  is_ValueError_or_SyntaxError e = true ->
  parse_item literal_eval item = Return item.
Proof. intros Heval Hcaught. unfold parse_item. by rewrite Heval; simpl; rewrite Hcaught. Qed.

Lemma parse_item_escapes (item : value) (e : exn) :
  literal_eval item = Raise e ->
  is_ValueError_or_SyntaxError e = false ->
  parse_item literal_eval item = Raise e.
Proof. intros Heval Hcaught. unfold parse_item. by rewrite Heval; simpl; rewrite Hcaught. Qed.

Lemma parse_item_literal (item v : value) :
  literal_eval item = Return v -> parse_item literal_eval item = Return v.
Proof. intros Heval. unfold parse_item. by rewrite Heval. Qed.

(** A row of items none of which is a literal is returned as it is. *)
Lemma parse_row_unchanged (row : list value) :
  Forall (fun item => ∃ e, literal_eval item = Raise e ∧
                           is_ValueError_or_SyntaxError e = true) row ->
  parse_row literal_eval row = Return row.
Proof.
  unfold parse_row. induction 1 as [|item row (e & Heval & Hcaught) _ IH]; [done|].
  simpl. by rewrite (parse_item_caught item e), IH.
Qed.
End ParseFacts.

(** C9.  Parsing leaves a string alone when it is no literal: "hello" is
    returned unchanged (by every evaluator that agrees with the core of
    [ast.literal_eval]), and whenever the literal evaluation of an item fails
    (with the [ValueError] or [SyntaxError] that [parse_data] handles), the
    item is returned as it is, so that parsing the result again gives the
    same result; likewise for a whole row of such items. *)
Theorem parse_fixed_point (literal_eval : value -> result value) :
  (extends_core literal_eval ->
   parse_item literal_eval (VStr "hello") = Return (VStr "hello") ∧
   parse_data literal_eval [[VStr "hello"]] = Return [[VStr "hello"]]) ∧
  (∀ item e,
     literal_eval item = Raise e ->
     is_ValueError_or_SyntaxError e = true ->
     parse_item literal_eval item = Return item ∧
     (parse_item literal_eval item ≫= parse_item literal_eval) = Return item) ∧
  (∀ row,
     Forall (fun item => ∃ e, literal_eval item = Raise e ∧
                              is_ValueError_or_SyntaxError e = true) row ->
     parse_data literal_eval [row] = Return [row] ∧
     (parse_data literal_eval [row] ≫= parse_data literal_eval) = Return [row]).
Proof.
  split_and!.
  - intros Hcore.
    assert (parse_item literal_eval (VStr "hello") = Return (VStr "hello"))
      as Hitem.
    { apply (parse_item_caught _ _ ValueError); [by apply Hcore|done]. }
    split; [done|]. unfold parse_data, parse_row. simpl. by rewrite Hitem.
  - intros item e Heval Hcaught.
    rewrite (parse_item_caught _ item e) by done. split; [done|]. simpl.
    by apply (parse_item_caught _ item e).
  - intros row Hrow.
    assert (parse_data literal_eval [row] = Return [row]) as Hdata.
    { unfold parse_data. simpl. by rewrite parse_row_unchanged. }
    by rewrite Hdata.
Qed.

Lemma parse_fixed_point_witness :
  parse_item core_evaluator (VStr "hello") = Return (VStr "hello") ∧
  parse_item core_evaluator (VStr "[1,2") = Return (VStr "[1,2") ∧
  (parse_item core_evaluator (VStr "[1,2") ≫= parse_item core_evaluator) =
    Return (VStr "[1,2") ∧
  parse_data core_evaluator [[VStr "John"; VInt 30]] =
    Return [[VStr "John"; VInt 30]].
Proof.
  destruct (parse_fixed_point core_evaluator) as (Hhello & Hitem & Hrow).
  destruct (Hhello core_evaluator_extends) as [Hhello' _].
  destruct (Hitem (VStr "[1,2") SyntaxError eq_refl eq_refl) as [Hfirst Hagain].
  split_and!; [exact Hhello'|exact Hfirst|exact Hagain|].
  apply (Hrow [VStr "John"; VInt 30]).
  repeat constructor; by exists ValueError.
Defined.

(** C8 on the code.  A malformed display such as "[1,2" is kept as a
    string, but a dictionary literal with a list as key makes the literal
    evaluation raise [TypeError], which [parse_data] does not handle: the
    exception escapes and no row is returned. *)
Theorem parse_data_type_error (literal_eval : value -> result value) :
  extends_core literal_eval ->
  parse_data literal_eval [[VStr "[1,2"]] = Return [[VStr "[1,2"]] ∧
  parse_item literal_eval (VStr "{[1]: 2}") = Raise TypeError ∧
  parse_data literal_eval [[VStr "{[1]: 2}"]] = Raise TypeError.
Proof.
  intros Hcore.
  assert (parse_item literal_eval (VStr "[1,2") = Return (VStr "[1,2")) as Hopen.
  { apply (parse_item_caught _ _ SyntaxError); [by apply Hcore|done]. }
  assert (parse_item literal_eval (VStr "{[1]: 2}") = Raise TypeError) as Hkey.
  { apply parse_item_escapes; [by apply Hcore|done]. }
  split_and!; [|done|]; unfold parse_data, parse_row; simpl.
  - by rewrite Hopen.
  - by rewrite Hkey.
Qed.

Lemma parse_data_type_error_witness :
  parse_data core_evaluator [[VStr "[1,2"]] = Return [[VStr "[1,2"]] ∧
  parse_item core_evaluator (VStr "{[1]: 2}") = Raise TypeError ∧
  parse_data core_evaluator [[VStr "{[1]: 2}"]] = Raise TypeError.
Proof. apply (parse_data_type_error core_evaluator core_evaluator_extends). Defined.

(** * Further properties *)

(** ** When [validate_data] passes, and where it stops *)

Section ValidateVerdict.
Variable format_value : value -> result string.
Variable validate_type : value -> string -> result bool.

Lemma check_field_ok (v : value) (f : field) :
  (check_field format_value validate_type v f).2 = Return () <->
  field_ok validate_type v f.
Proof.
  unfold check_field, field_ok.
  destruct (String.eqb_spec (get_mode f) "REQUIRED") as [Hmode|Hmode];
    destruct (is_None v); simpl; try tauto.
  - split; [done|]. intros Hne. by destruct Hne.
  - destruct (validate_type v (type f)) as [[]|e]; [done| |done].
    by destruct (format_value v).
  - destruct (validate_type v (type f)) as [[]|e]; [done| |done].
    by destruct (format_value v).
Qed.

Lemma check_fields_ok (row : list value) (schema : list field) :
  length row = length schema ->
  (check_fields format_value validate_type row schema).2 = Return () <->
  Forall2 (field_ok validate_type) row schema.
Proof.
  revert schema. induction row as [|v row IH]; intros [|f schema] Hlen;
    simplify_eq/=.
  - split; [constructor|done].
  - pose proof (check_field_ok v f) as Hfield.
    destruct (check_field format_value validate_type v f) as [log [[]|e]]; simpl in *.
    + specialize (IH schema Hlen).
      destruct (check_fields format_value validate_type row schema) as [log' r]. simpl in *.
      rewrite Forall2_cons. rewrite <- IH. tauto.
    + split; [done|]. intros [Hok _]%Forall2_cons. by apply Hfield in Hok.
Qed.

Lemma validate_row_ok (row : list value) (schema : list field) :
  (validate_row format_value validate_type row schema).2 = Return () <->
  Forall2 (field_ok validate_type) row schema.
Proof.
  destruct (decide (length row = length schema)) as [Hlen|Hlen].
  - rewrite validate_row_length_match by done. by apply check_fields_ok.
  - rewrite validate_row_length_mismatch by done. simpl. split; [done|].
    by intros ?%Forall2_length.
Qed.

Lemma validate_rows_ok (data : list (list value)) (schema : list field) :
  (validate_rows format_value validate_type data schema).2 = Return () <->
  valid_rows validate_type schema data.
Proof.
  unfold valid_rows. induction data as [|row data IH]; simpl.
  - split; [constructor|done].
  - pose proof (validate_row_ok row schema) as Hrow.
    destruct (validate_row format_value validate_type row schema) as [log [[]|e]]; simpl in *.
    + destruct (validate_rows format_value validate_type data schema) as [log' r]. simpl in *.
      rewrite Forall_cons, <- IH. tauto.
    + split; [done|]. intros [Hok _]%Forall_cons. by apply Hrow in Hok.
Qed.

(** X2.  [validate_data] stops at the first row that fails: when the rows
    before it pass, its exception is that row's, and the rows after it are
    neither inspected nor able to change the outcome. *)
Theorem validate_data_first_failure (before after : list (list value))
    (bad : list value) (schema : list field) (e : exn) :
  (validate_rows format_value validate_type before schema).2 = Return () ->
  (validate_row format_value validate_type bad schema).2 = Raise e ->
  validate_rows format_value validate_type (before ++ bad :: after) schema =
    validate_rows format_value validate_type (before ++ [bad]) schema ∧
  (validate_rows format_value validate_type (before ++ bad :: after) schema).2 = Raise e.
Proof.
  intros Hbefore Hbad. rewrite !validate_rows_app.
  destruct (validate_rows format_value validate_type before schema) as [log [[]|e']];
    [|done]. simpl.
  destruct (validate_row format_value validate_type bad schema) as [log' [[]|e']];
    simplify_eq/=. done.
Qed.
End ValidateVerdict.

Lemma validate_data_first_failure_witness :
  validate_rows (str utc_host) (schema_val.validate_type utc_host)
    ([[VStr "Ann"; VInt 30; VNone]] ++ [VNone; VInt 4; VNone] ::
     [[VStr "Bob"; VStr "x"; VNone]]) person_schema =
  validate_rows (str utc_host) (schema_val.validate_type utc_host)
    ([[VStr "Ann"; VInt 30; VNone]] ++ [[VNone; VInt 4; VNone]]) person_schema ∧
  (validate_rows (str utc_host) (schema_val.validate_type utc_host)
     ([[VStr "Ann"; VInt 30; VNone]] ++ [VNone; VInt 4; VNone] ::
      [[VStr "Bob"; VStr "x"; VNone]]) person_schema).2 =
  Raise (SchemaValidationException (RequiredFieldMissing "name")).
Proof.
  apply (validate_data_first_failure (str utc_host)
           (schema_val.validate_type utc_host)
           [[VStr "Ann"; VInt 30; VNone]] [[VStr "Bob"; VStr "x"; VNone]]
           [VNone; VInt 4; VNone] person_schema); reflexivity.
Defined.

(** X1.  [validate_data] returns without an exception exactly when every
    row has the schema's length and each of its values passes the check of
    the field at its position: a null under a field that is not REQUIRED,
    any other value when [validate_type] returns [True] for the field's
    type.  This holds in both files, each with its own [validate_type]. *)
Theorem validate_data_passes (py : interpreter) (data : list (list value))
    (schema : list field) :
  ((schema_val.validate_data py data schema).2 = Return () <->
   Forall (fun row => Forall2 (field_ok (schema_val.validate_type py)) row schema)
     data) ∧
  ((df_bq_ingest.SchemaValidation.validate_data py data schema).2 = Return () <->
   Forall (fun row =>
     Forall2 (field_ok (df_bq_ingest.SchemaValidation.validate_type py))
       row schema) data).
Proof. split; apply validate_rows_ok. Qed.

(** ** What [validate_type] and [validate_data] raise *)

Lemma type_classes_disjoint (field_type : string) :
  (str_in field_type textual_types = true ->
   str_in field_type integer_types = false ∧
   str_in field_type decimal_types = false) ∧
  (str_in field_type integer_types = true ->
   str_in field_type decimal_types = false).
Proof.
  split; intros Hin%str_in_true;
    unfold textual_types, integer_types in Hin;
    repeat (apply elem_of_cons in Hin as [->|Hin]); try done;
    by apply elem_of_nil in Hin.
Qed.

Lemma int_raises (v : value) (e : exn) :
  int v = Raise e ->
  (is_ValueError_or_TypeError e = true ∧ is_infinite v = false) ∨
  (e = OverflowError ∧ is_infinite v = true).
Proof.
  destruct v as [|b|n|f|s|s|l|l|l|l]; simpl; try done;
    try (intros [= <-]; by left).
  - destruct f; simpl; try done; intros [= <-]; [by right|by left].
  - destruct (int_literal _); [done|]. intros [= <-]. by left.
  - destruct (int_literal _); [done|]. intros [= <-]. by left.
Qed.

Lemma float_raises (v : value) (e : exn) :
  float v = Raise e ->
  (is_ValueError_or_TypeError e = true ∧
   ¬ ∃ n, v = VInt n ∧ 2 ^ 1024 - 2 ^ 970 <= Z.abs n) ∨
  (e = OverflowError ∧ ∃ n, v = VInt n ∧ 2 ^ 1024 - 2 ^ 970 <= Z.abs n).
Proof.
  destruct v as [|b|n|f|s|s|l|l|l|l]; simpl; try done;
    try (intros [= <-]; left; split; [done|by intros (? & ? & ?)]).
  - destruct (Z.ltb_spec (Z.abs n) (2 ^ 1024 - 2 ^ 970)); [done|].
    intros [= <-]. right. eauto.
  - destruct (float_literal _); [done|]. intros [= <-].
    left; split; [done|by intros (? & ? & ?)].
  - destruct (float_literal _); [done|]. intros [= <-].
    left; split; [done|by intros (? & ? & ?)].
Qed.

Lemma float_returns (v : value) (u : unit) :
  float v = Return u -> ¬ ∃ n, v = VInt n ∧ 2 ^ 1024 - 2 ^ 970 <= Z.abs n.
Proof.
  intros Hfloat (n & -> & Hbig). simpl in Hfloat.
  destruct (Z.ltb_spec (Z.abs n) (2 ^ 1024 - 2 ^ 970)); [lia|done].
Qed.

Lemma int_returns (v : value) (n : Z) : int v = Return n -> is_infinite v = false.
Proof. by destruct v as [| | |[]| | | | | |]. Qed.

Lemma timestamp_raises (py : interpreter) (v : value) (e : exn) :
  timestamp py v = Raise e -> is_ValueError_or_TypeError e = true.
Proof.
  rewrite timestamp_is_chain. unfold timestamp_chain.
  assert ((∃ s, v = VStr s) ∨ (∀ s, v ≠ VStr s)) as [[s ->]|Hv]
    by (destruct v; eauto; by right).
  - destruct (first_success_spec (timestamp_stages py) (VStr s))
      as [[-> _]|[-> _]]; [by eauto using stage_str_raises|done|].
    by intros [= <-].
  - cbn [timestamp_stages first_success fmap list_fmap timestamp_formats].
    rewrite (stage_not_str py stage_iso v Hv); [|by left]. by intros [= <-].
Qed.

Lemma try_except_raises {A} (r : result A) (catches : exn -> bool) (a : A)
    (e : exn) :
  try_except r catches (Return a) = Raise e <->
  r = Raise e ∧ catches e = false.
Proof.
  destruct r as [b|e']; simpl; [by split; [|intros []]|].
  destruct (catches e') eqn:He'; split; try done.
  - intros [[= ->] ?]. congruence.
  - by intros [= ->].
  - by intros [[= ->] _].
Qed.

Lemma then_true_raises {A} (r : result A) (e : exn) :
  (_ ← r; Return true) = Raise e <-> r = Raise e.
Proof. destruct r; simpl; [by split|]. split; by intros [= ->]. Qed.

Lemma int_infinite (v : value) :
  is_infinite v = true -> int v = Raise OverflowError.
Proof. by destruct v as [| | |[]| | | | | |]. Qed.

Lemma float_beyond (n : Z) :
  2 ^ 1024 - 2 ^ 970 <= Z.abs n -> float (VInt n) = Raise OverflowError.
Proof.
  intros Hbig. simpl.
  by destruct (Z.ltb_spec (Z.abs n) (2 ^ 1024 - 2 ^ 970)); [lia|].
Qed.

(** What escapes the [except (ValueError, TypeError)] of [validate_type]:
    [OverflowError] from a numeric conversion, whatever else [str] raises
    under a textual type or BOOL, and whatever else the final [else]
    raises. *)
Lemma validate_type_with_raises (py : interpreter)
    (otherwise : value -> result bool) (v : value) (field_type : string)
    (e : exn) :
  validate_type_with py otherwise v field_type = Raise e <->
  is_ValueError_or_TypeError e = false ∧
  ((e = OverflowError ∧ overflows v field_type) ∨
   ((str_in field_type textual_types = true ∨ field_type = "BOOL") ∧
    str py v = Raise e) ∨
   (recognized field_type = false ∧ otherwise v = Raise e)).
Proof.
  unfold validate_type_with. rewrite try_except_raises.
  unfold overflows, recognized, recognized_types. rewrite !str_in_app.
  destruct (type_classes_disjoint field_type) as [Htext Hint].
  assert (∀ A P Q : Prop, (A -> (P <-> Q)) -> P ∧ A <-> A ∧ Q) as Hswap
    by tauto.
  apply Hswap. clear Hswap. intros He.
  destruct (str_in field_type textual_types) eqn:Ht.
  { destruct (Htext eq_refl) as [-> ->]. rewrite then_true_raises. simpl.
    split; [by eauto|]. by intros [[_ [[[=] _]|[[=] _]]]|[[_ ?]|[[=] _]]]. }
  destruct (str_in field_type integer_types) eqn:Hi.
  { rewrite (Hint eq_refl), then_true_raises. simpl. split.
    - intros [[He' _]|[-> ?]]%int_raises; [congruence|by eauto].
    - intros [[-> [[_ ?]|[[=] _]]]|[[[[=]| ->] _]|[[=] _]]]; [|done].
      by apply int_infinite. }
  destruct (str_in field_type decimal_types) eqn:Hd.
  { rewrite then_true_raises. simpl. split.
    - intros [[He' _]|[-> ?]]%float_raises; [congruence|by eauto].
    - intros [[-> [[[=] _]|[_ (n & -> & ?)]]]|[[[[=]| ->] _]|[[=] _]]];
        [|done]. by apply float_beyond. }
  cbn [orb str_in existsb].
  destruct (String.eqb_spec field_type "BOOL") as [->|Hbool].
  { simpl. split.
    - intros Hstr. right. left. split; [by right|].
      destruct (str py v) as [text|e'] eqn:Hs; simpl in Hstr.
      + by destruct (negb _) in Hstr.
      + by injection Hstr as ->.
    - intros [[_ [[[=] _]|[[=] _]]]|[[_ ->]|[[=] _]]]. done. }
  assert (∀ r : result bool,
            (∀ e', r = Raise e' -> is_ValueError_or_TypeError e' = true) ->
            r = Raise e <->
            e = OverflowError ∧
            (false = true ∧ is_infinite v = true ∨
             false = true ∧ ∃ n, v = VInt n ∧ 2 ^ 1024 - 2 ^ 970 <= Z.abs n) ∨
            (false = true ∨ field_type = "BOOL") ∧ str py v = Raise e ∨
            true = false ∧ otherwise v = Raise e) as Hcaught.
  { intros r Hr. split.
    - intros Hraise. apply Hr in Hraise. congruence.
    - by intros [[_ [[[=] _]|[[=] _]]]|[[[[=]|?] _]|[[=] _]]]. }
  destruct (String.eqb field_type "DATE").
  { apply Hcaught. intros e' Hraise. apply (proj1 (then_true_raises _ _)) in Hraise.
    by apply strptime_raises in Hraise. }
  destruct (String.eqb field_type "DATETIME").
  { apply Hcaught. intros e' Hraise. apply (proj1 (then_true_raises _ _)) in Hraise.
    by apply strptime_raises in Hraise. }
  destruct (String.eqb field_type "TIME").
  { apply Hcaught. intros e' Hraise. apply (proj1 (then_true_raises _ _)) in Hraise.
    by apply strptime_raises in Hraise. }
  destruct (String.eqb field_type "TIMESTAMP").
  { apply Hcaught. intros e' Hraise. apply (proj1 (then_true_raises _ _)) in Hraise.
    by apply timestamp_raises in Hraise. }
  simpl. split; [by eauto|].
  by intros [[_ [[[=] _]|[[=] _]]]|[[[[=]|?] _]|[_ ?]]].
Qed.

Lemma check_field_raises (format_value : value -> result string)
    (validate_type : value -> string -> result bool)
    (v : value) (f : field) (e : exn) :
  (check_field format_value validate_type v f).2 = Raise e ->
  (∃ why, e = SchemaValidationException why) ∨
  validate_type v (type f) = Raise e ∨
  format_value v = Raise e.
Proof.
  unfold check_field. destruct (_ && _); [simpl; intros [= <-]; eauto|].
  destruct (negb _); [|done]. simpl.
  destruct (validate_type v (type f)) as [[]|e'] eqn:Htype; [done|..].
  - destruct (format_value v) as [text|e'] eqn:Htext; simpl; intros [= <-];
      eauto.
  - intros [= <-]. eauto.
Qed.

Lemma check_fields_raises (format_value : value -> result string)
    (validate_type : value -> string -> result bool)
    (row : list value) (schema : list field) (e : exn) :
  (check_fields format_value validate_type row schema).2 = Raise e ->
  (∃ why, e = SchemaValidationException why) ∨
  (∃ v f, v ∈ row ∧ f ∈ schema ∧ validate_type v (type f) = Raise e) ∨
  (∃ v, v ∈ row ∧ format_value v = Raise e).
Proof.
  revert schema. induction row as [|v row IH]; intros [|f schema]; try done.
  simpl.
  destruct (check_field format_value validate_type v f) as [log [[]|e']]
    eqn:Hfield.
  - specialize (IH schema).
    destruct (check_fields format_value validate_type row schema)
      as [log' r]. simpl in *.
    intros Hr.
    destruct (IH Hr) as [?|[(v' & f' & ? & ? & ?)|(v' & ? & ?)]]; [by left|..].
    + right. left. exists v', f'. by rewrite !elem_of_cons; eauto.
    + right. right. exists v'. by rewrite !elem_of_cons; eauto.
  - simpl. intros [= ->].
    destruct (check_field_raises format_value validate_type v f e)
      as [?|[?|?]]; [by rewrite Hfield|by left|..].
    + right. left. exists v, f. by rewrite !elem_of_cons; eauto.
    + right. right. exists v. by rewrite !elem_of_cons; eauto.
Qed.

Lemma validate_rows_raises (format_value : value -> result string)
    (validate_type : value -> string -> result bool)
    (data : list (list value)) (schema : list field) (e : exn) :
  (validate_rows format_value validate_type data schema).2 = Raise e ->
  (∃ why, e = SchemaValidationException why) ∨
  (∃ row v f, row ∈ data ∧ v ∈ row ∧ f ∈ schema ∧
              validate_type v (type f) = Raise e) ∨
  (∃ row v, row ∈ data ∧ v ∈ row ∧ format_value v = Raise e).
Proof.
  induction data as [|row data IH]; [done|]. simpl.
  destruct (validate_row format_value validate_type row schema)
    as [log [[]|e']] eqn:Hrow.
  - destruct (validate_rows format_value validate_type data schema)
      as [log' r]. simpl in *.
    intros Hr.
    destruct (IH Hr) as [?|[(row' & v & f & ? & ?)|(row' & v & ? & ?)]];
      [by left|..].
    + right. left. exists row', v, f. by rewrite elem_of_cons; eauto.
    + right. right. exists row', v. by rewrite elem_of_cons; eauto.
  - simpl. intros [= ->]. unfold validate_row in Hrow.
    destruct (negb _); [simplify_eq; eauto|].
    destruct (check_fields_raises format_value validate_type row schema e)
      as [?|[(v & f & ? & ? & ?)|(v & ? & ?)]]; [by rewrite Hrow|by left|..].
    + right. left. exists row, v, f. by rewrite elem_of_cons; eauto.
    + right. right. exists row, v. by rewrite elem_of_cons; eauto.
Qed.

Lemma validate_rows_overflow (py : interpreter)
    (otherwise : value -> result bool) (data : list (list value))
    (schema : list field) (e : exn) :
  (∀ w e', otherwise w = Raise e' -> str py w = Raise e') ->
  (validate_rows (str py) (validate_type_with py otherwise) data schema).2 =
    Raise e ->
  (∃ why, e = SchemaValidationException why) ∨
  (e = OverflowError ∧
   ∃ row v f, row ∈ data ∧ v ∈ row ∧ f ∈ schema ∧ overflows v (type f)) ∨
  (∃ row v, row ∈ data ∧ v ∈ row ∧ str py v = Raise e).
Proof.
  intros Hotherwise
    [?|[(row & v & f & ? & ? & ? & Hraise)|?]]%validate_rows_raises;
    [by left| |by right; right].
  apply validate_type_with_raises in Hraise
    as [_ [[-> ?]|[[_ ?]|[_ ?%Hotherwise]]]].
  - right. left. split; [done|]. by exists row, v, f.
  - right. right. by exists row, v.
  - right. right. by exists row, v.
Qed.

Lemma otherwise_false_raises (py : interpreter) (w : value) (e : exn) :
  (fun _ : value => Return false) w = Raise e -> str py w = Raise e.
Proof. done. Qed.

Lemma otherwise_str_raises (py : interpreter) (w : value) (e : exn) :
  (fun value => _ ← str py value; Return true) w = Raise e ->
  str py w = Raise e.
Proof. apply then_true_raises. Qed.

(** X3.  What [validate_type] lets through its
    [except (ValueError, TypeError)].  [OverflowError] escapes, raised by
    [int] of an infinite float under an integer type and by [float] of an
    [int] beyond the largest double under a decimal type.  So does
    whatever [str(value)] raises other than the two caught classes
    ([RecursionError] for a list nested too deep) where the function takes
    the value's text: under a textual type and BOOL, and in the pipeline's
    final [else].  In every other case, and whenever [str(value)] returns
    and no conversion overflows, the function returns a Boolean. *)
Theorem validate_type_overflow (py : interpreter) (v : value)
    (field_type : string) (e : exn) :
  (schema_val.validate_type py v field_type = Raise e <->
   is_ValueError_or_TypeError e = false ∧
   ((e = OverflowError ∧ overflows v field_type) ∨
    ((str_in field_type textual_types = true ∨ field_type = "BOOL") ∧
     str py v = Raise e))) ∧
  (df_bq_ingest.SchemaValidation.validate_type py v field_type = Raise e <->
   is_ValueError_or_TypeError e = false ∧
   ((e = OverflowError ∧ overflows v field_type) ∨
    ((str_in field_type textual_types = true ∨ field_type = "BOOL" ∨
      recognized field_type = false) ∧
     str py v = Raise e))) ∧
  ((∃ text, str py v = Return text) ->
   (schema_val.validate_type py v field_type = Raise e <->
    e = OverflowError ∧ overflows v field_type) ∧
   (df_bq_ingest.SchemaValidation.validate_type py v field_type = Raise e <->
    e = OverflowError ∧ overflows v field_type)).
Proof.
  unfold schema_val.validate_type, df_bq_ingest.SchemaValidation.validate_type.
  rewrite !validate_type_with_raises, then_true_raises.
  split_and!.
  - split; [|by intros [? [?|?]]; eauto].
    intros [? [?|[?|[_ [=]]]]]; eauto.
  - split.
    + intros [? [?|[[[?|?] ?]|[? ?]]]]; eauto 10.
    + intros [? [?|[[?|[?|?]] ?]]]; eauto 10.
  - intros [text Htext]. rewrite Htext. split.
    + split; [|by intros [-> ?]; eauto].
      by intros [? [?|[[_ [=]]|[_ [=]]]]].
    + split; [|by intros [-> ?]; eauto].
      by intros [? [?|[[_ [=]]|[_ [=]]]]].
Qed.

(** X4.  [validate_data] raises [SchemaValidationException], or
    [OverflowError] when some value of the data overflows the numeric type
    of some field, or what [str] raises on some value of the data, either
    inside [validate_type] or while the message of the exception is
    formatted ([ValueError] for an [int] of more than 4300 digits,
    [RecursionError] for a list nested too deep); it raises nothing
    else. *)
Theorem validate_data_raises (py : interpreter) (data : list (list value))
    (schema : list field) (e : exn) :
  ((schema_val.validate_data py data schema).2 = Raise e ->
   (∃ why, e = SchemaValidationException why) ∨
   (e = OverflowError ∧
    ∃ row v f, row ∈ data ∧ v ∈ row ∧ f ∈ schema ∧ overflows v (type f)) ∨
   (∃ row v, row ∈ data ∧ v ∈ row ∧ str py v = Raise e)) ∧
  ((df_bq_ingest.SchemaValidation.validate_data py data schema).2 = Raise e ->
   (∃ why, e = SchemaValidationException why) ∨
   (e = OverflowError ∧
    ∃ row v f, row ∈ data ∧ v ∈ row ∧ f ∈ schema ∧ overflows v (type f)) ∨
   (∃ row v, row ∈ data ∧ v ∈ row ∧ str py v = Raise e)).
Proof.
  split; apply validate_rows_overflow; intros w e'.
  - apply otherwise_false_raises.
  - apply otherwise_str_raises.
Qed.

(** ** The two [validate_type] compared *)

Lemma validate_type_with_recognized (py : interpreter)
    (otherwise otherwise' : value -> result bool) (v : value)
    (field_type : string) :
  recognized field_type = true ->
  validate_type_with py otherwise v field_type =
  validate_type_with py otherwise' v field_type.
Proof.
  unfold recognized, recognized_types. rewrite !str_in_app.
  unfold validate_type_with.
  destruct (str_in field_type textual_types); [done|].
  destruct (str_in field_type integer_types); [done|].
  destruct (str_in field_type decimal_types); [done|].
  cbn [orb str_in existsb].
  destruct (String.eqb field_type "BOOL"); [done|].
  destruct (String.eqb field_type "DATE"); [done|].
  destruct (String.eqb field_type "DATETIME"); [done|].
  destruct (String.eqb field_type "TIME"); [done|].
  destruct (String.eqb field_type "TIMESTAMP"); [done|]. done.
Qed.

Lemma validate_type_variants (py : interpreter) (v : value)
    (field_type : string) :
  (recognized field_type = true ->
   df_bq_ingest.SchemaValidation.validate_type py v field_type =
   schema_val.validate_type py v field_type) ∧
  (recognized field_type = false ->
   df_bq_ingest.SchemaValidation.validate_type py v field_type =
     try_except (_ ← str py v; Return true)
       is_ValueError_or_TypeError (Return false) ∧
   schema_val.validate_type py v field_type = Return false).
Proof.
  split; intros Htag.
  - by apply validate_type_with_recognized.
  - unfold df_bq_ingest.SchemaValidation.validate_type,
      schema_val.validate_type.
    by rewrite !validate_type_with_unrecognized.
Qed.

Lemma field_ok_variants (py : interpreter) (v : value) (f : field) :
  field_ok (schema_val.validate_type py) v f ->
  field_ok (df_bq_ingest.SchemaValidation.validate_type py) v f.
Proof.
  unfold field_ok. destruct (is_None v); [done|].
  destruct (validate_type_variants py v (type f)) as [Hsame Hother].
  destruct (recognized (type f)).
  - by rewrite Hsame.
  - destruct Hother as [_ ->]; done.
Qed.

(** X5.  The validator of the pipeline accepts whatever the validator of
    [schema_val.py] accepts: the two [validate_type] agree on every
    recognised type tag (they differ only in their final [else]), so data
    that passes [validate_data] of [schema_val.py] passes that of
    [df_bq_ingest.py]. *)
Theorem pipeline_validator_accepts_more (py : interpreter)
    (data : list (list value)) (schema : list field) :
  (∀ v field_type,
     recognized field_type = true ->
     df_bq_ingest.SchemaValidation.validate_type py v field_type =
     schema_val.validate_type py v field_type) ∧
  ((schema_val.validate_data py data schema).2 = Return () ->
   (df_bq_ingest.SchemaValidation.validate_data py data schema).2 = Return ()).
Proof.
  split.
  - intros v field_type. apply validate_type_variants.
  - unfold schema_val.validate_data, df_bq_ingest.SchemaValidation.validate_data.
    rewrite !validate_rows_ok. unfold valid_rows. intros Hall.
    eapply Forall_impl; [exact Hall|]. intros row Hrow. simpl in *.
    eapply Forall2_impl; [exact Hrow|]. apply field_ok_variants.
Qed.

(** ** The date and time classes *)

Lemma strptime_returns_str (py : interpreter) (v : value) (fmt : string)
    (dt : datetime) :
  strptime py v fmt = Return dt -> ∃ s, v = VStr s.
Proof. destruct v; try done. eauto. Qed.

Lemma try_returns_true (r : result bool) :
  try_except r is_ValueError_or_TypeError (Return false) = Return true ->
  r = Return true.
Proof. destruct r as [b|e]; simpl; [done|]. by destruct (is_ValueError_or_TypeError e). Qed.

Lemma then_true_returns {A} (r : result A) :
  (_ ← r; Return true) = Return true -> ∃ a, r = Return a.
Proof. destruct r; [eauto|done]. Qed.

(** X6.  A value that is no [str] is coercible to none of DATE, DATETIME,
    TIME and TIMESTAMP: [strptime] and [re.match] raise [TypeError] on it,
    which [validate_type] turns into [False]. *)
Theorem temporal_needs_str (py : interpreter) (otherwise : value -> result bool)
    (v : value) (field_type : string) :
  is_str v = false ->
  field_type ∈ ["DATE"; "DATETIME"; "TIME"; "TIMESTAMP"] ->
  validate_type_with py otherwise v field_type = Return false.
Proof.
  intros Hv Htag.
  repeat (apply elem_of_cons in Htag as [->|Htag]);
    [..|by apply elem_of_nil in Htag]; by destruct v.
Qed.

Lemma temporal_needs_str_witness :
  validate_type_with utc_host (fun _ => Return false) (VInt 20230701) "DATE" =
  Return false.
Proof.
  apply (temporal_needs_str utc_host (fun _ => Return false) (VInt 20230701)
           "DATE"); [reflexivity|].
  apply list_elem_of_here.
Defined.

(** X7.  Every value coercible to DATETIME is coercible to TIMESTAMP: the
    last stage of the TIMESTAMP chain is the DATETIME format, and no earlier
    stage fails with anything but the [ValueError] that hands over to the
    next. *)
Theorem datetime_is_timestamp (py : interpreter)
    (otherwise otherwise' : value -> result bool) (v : value) :
  validate_type_with py otherwise v "DATETIME" = Return true ->
  validate_type_with py otherwise' v "TIMESTAMP" = Return true.
Proof.
  rewrite validate_type_timestamp.
  change (validate_type_with py otherwise v "DATETIME") with
    (try_except (_ ← strptime py v "%Y-%m-%d %H:%M:%S"; Return true)
       is_ValueError_or_TypeError (Return false)).
  intros [dt Hdt]%try_returns_true%then_true_returns.
  destruct (strptime_returns_str _ _ _ _ Hdt) as [s ->].
  rewrite timestamp_is_chain. unfold timestamp_chain.
  destruct (first_success_spec (timestamp_stages py) (VStr s))
    as [[-> _]|[_ Hall]]; [by eauto using stage_str_raises|done|].
  specialize (Hall (stage_format py "%Y-%m-%d %H:%M:%S")).
  unfold stage_format, exec_ in Hall. rewrite Hdt in Hall.
  discriminate Hall. unfold timestamp_stages, timestamp_formats.
  rewrite elem_of_cons. right. apply list_elem_of_fmap.
  exists "%Y-%m-%d %H:%M:%S". split; [done|].
  repeat first [apply list_elem_of_here | apply list_elem_of_further].
Qed.

Lemma datetime_is_timestamp_witness :
  validate_type_with utc_host (fun _ => Return false)
    (VStr "2023-07-01 08:15:30") "TIMESTAMP" = Return true.
Proof.
  apply (datetime_is_timestamp utc_host (fun _ => Return false)
           (fun _ => Return false) (VStr "2023-07-01 08:15:30")).
  vm_compute. reflexivity.
Defined.

(** ** The integer class within the decimal class *)

Lemma int_literal_float (s : string) (n : Z) :
  int_literal s = Some n -> float_literal s = true.
Proof.
  unfold int_literal, float_literal.
  destruct (sign s) as [neg s1]. cbn [snd].
  destruct (digits s1) as [[m [|c r]]|] eqn:Hdigits; try done. intros _.
  destruct s1 as [|d s1]; [done|].
  assert (is_digit d = true) as Hd.
  { unfold digits in Hdigits. by destruct (is_digit d). }
  clear Hdigits. digit_cases Hd; reflexivity.
Qed.

Lemma int_then_float (v : value) (n : Z) :
  int v = Return n ->
  (∀ m, v = VInt m -> Z.abs m < 2 ^ 1024 - 2 ^ 970) ->
  float v = Return ().
Proof.
  destruct v as [|b|m|f|s|s|l|l|l|l]; try done; simpl.
  - intros _ Hsmall. specialize (Hsmall m eq_refl).
    by destruct (Z.ltb_spec (Z.abs m) (2 ^ 1024 - 2 ^ 970)); [|lia].
  - destruct (int_literal _) eqn:Hint; [|done].
    by rewrite (int_literal_float _ _ Hint).
  - destruct (int_literal _) eqn:Hint; [|done].
    by rewrite (int_literal_float _ _ Hint).
Qed.

Lemma validate_type_decimal (py : interpreter) (otherwise : value -> result bool)
    (v : value) (field_type : string) :
  str_in field_type decimal_types = true ->
  validate_type_with py otherwise v field_type =
    try_except (_ ← float v; Return true) is_ValueError_or_TypeError (Return false).
Proof.
  intros Hin%str_in_true. unfold validate_type_with, decimal_types in *.
  repeat (apply elem_of_cons in Hin as [->|Hin]); try done.
  by apply elem_of_nil in Hin.
Qed.

(** X8.  A value coercible to an integer type is coercible to every
    decimal type, unless it is an [int] beyond the largest double (on which
    [float] raises [OverflowError]): text that [int] reads is text that
    [float] reads. *)
Theorem integer_then_decimal (py : interpreter)
    (otherwise otherwise' : value -> result bool) (v : value)
    (integer_type decimal_type : string) :
  str_in integer_type integer_types = true ->
  str_in decimal_type decimal_types = true ->
  (∀ m, v = VInt m -> Z.abs m < 2 ^ 1024 - 2 ^ 970) ->
  validate_type_with py otherwise v integer_type = Return true ->
  validate_type_with py otherwise' v decimal_type = Return true.
Proof.
  intros Hint Hdec Hsmall.
  rewrite (validate_type_integer _ _ _ _ Hint),
    (validate_type_decimal _ _ _ _ Hdec).
  intros [n Hn]%try_returns_true%then_true_returns.
  by rewrite (int_then_float v n Hn Hsmall).
Qed.

Lemma integer_then_decimal_witness :
  validate_type_with utc_host (fun _ => Return false) (VStr " 1_000 ")
    "FLOAT64" = Return true.
Proof.
  apply (integer_then_decimal utc_host (fun _ => Return false)
           (fun _ => Return false) (VStr " 1_000 ") "INT64" "FLOAT64");
    [reflexivity|reflexivity|discriminate|reflexivity].
Defined.

(** ** What the loop of [validate_data] never does *)

Lemma check_fields_log (format_value : value -> result string)
    (validate_type : value -> string -> result bool)
    (row : list value) (schema : list field) (p : probe) :
  p ∈ (check_fields format_value validate_type row schema).1 ->
  ∃ v f, v ∈ row ∧ f ∈ schema ∧
    (p = Inspected v f ∨ p = Coerced v (type f) ∧ is_None v = false).
Proof.
  revert schema. induction row as [|v row IH]; intros [|f schema]; simpl;
    try by intros ?%elem_of_nil.
  assert (p ∈ (check_field format_value validate_type v f).1 ->
          p = Inspected v f ∨ p = Coerced v (type f) ∧ is_None v = false)
    as Hfield.
  { unfold check_field. destruct (_ && _); simpl.
    - intros ->%list_elem_of_singleton. by left.
    - destruct (is_None v); simpl.
      + intros ->%list_elem_of_singleton. by left.
      + intros [->|Hp]%elem_of_cons; [by left|].
        apply list_elem_of_singleton in Hp as ->. by right. }
  destruct (check_field format_value validate_type v f) as [log [[]|e]]; simpl in *.
  - specialize (IH schema).
    destruct (check_fields format_value validate_type row schema) as [log' r]. simpl in *.
    intros [Hp|Hp]%elem_of_app.
    + exists v, f. rewrite !elem_of_cons. split_and!; [by left..|by apply Hfield].
    + destruct (IH Hp) as (v' & f' & ? & ? & ?). exists v', f'.
      rewrite !elem_of_cons. split_and!; [by right..|done].
  - intros Hp. exists v, f. rewrite !elem_of_cons.
    split_and!; [by left..|by apply Hfield].
Qed.

Lemma validate_rows_log (format_value : value -> result string)
    (validate_type : value -> string -> result bool)
    (data : list (list value)) (schema : list field) (p : probe) :
  p ∈ (validate_rows format_value validate_type data schema).1 ->
  ∃ row v f, row ∈ data ∧ length row = length schema ∧ v ∈ row ∧ f ∈ schema ∧
    (p = Inspected v f ∨ p = Coerced v (type f) ∧ is_None v = false).
Proof.
  induction data as [|row data IH]; simpl; [by intros ?%elem_of_nil|].
  assert (p ∈ (validate_row format_value validate_type row schema).1 ->
          ∃ v f, length row = length schema ∧ v ∈ row ∧ f ∈ schema ∧
            (p = Inspected v f ∨ p = Coerced v (type f) ∧ is_None v = false))
    as Hrow.
  { unfold validate_row.
    destruct (Nat.eqb_spec (length row) (length schema)) as [Hlen|Hlen]; simpl.
    - intros (v & f & ?)%check_fields_log. by exists v, f.
    - by intros ?%elem_of_nil. }
  destruct (validate_row format_value validate_type row schema) as [log [[]|e]]; simpl in *.
  - destruct (validate_rows format_value validate_type data schema) as [log' r]. simpl in *.
    intros [Hp|Hp]%elem_of_app.
    + destruct (Hrow Hp) as (v & f & ?). exists row, v, f.
      rewrite elem_of_cons. split; [by left|done].
    + destruct (IH Hp) as (row' & v & f & ? & ?). exists row', v, f.
      rewrite elem_of_cons. split; [by right|done].
  - intros Hp. destruct (Hrow Hp) as (v & f & ?). exists row, v, f.
    rewrite elem_of_cons. split; [by left|done].
Qed.

(** X9.  [validate_data] never calls [validate_type] on a null: every call
    it makes is for a value that is not [None], taken from a row of the
    schema's length, with the type of a field of the schema. *)
Theorem validate_never_coerces_None (format_value : value -> result string)
    (validate_type : value -> string -> result bool)
    (data : list (list value)) (schema : list field) (v : value)
    (field_type : string) :
  Coerced v field_type ∈ (validate_rows format_value validate_type data schema).1 ->
  is_None v = false ∧
  ∃ row f, row ∈ data ∧ length row = length schema ∧ v ∈ row ∧ f ∈ schema ∧
           field_type = type f.
Proof.
  intros (row & v' & f & ? & ? & ? & ? & [[=]|[[= -> ->] ?]])%validate_rows_log.
  split; [done|]. by exists row, f.
Qed.

Lemma validate_never_coerces_None_witness :
  is_None (VInt 30) = false ∧
  ∃ row f, row ∈ [[VStr "Ann"; VInt 30; VNone]] ∧
           length row = length person_schema ∧ VInt 30 ∈ row ∧
           f ∈ person_schema ∧ "INT64" = type f.
Proof.
  apply (validate_never_coerces_None (str utc_host)
           (schema_val.validate_type utc_host)
           [[VStr "Ann"; VInt 30; VNone]] person_schema (VInt 30) "INT64").
  vm_compute. do 3 apply list_elem_of_further. apply list_elem_of_here.
Defined.

(** ** What [parse_data] returns *)

Lemma for_each_returns {A B} (f : A -> result B) (l : list A) (l' : list B) :
  for_each f l = Return l' <-> Forall2 (fun x y => f x = Return y) l l'.
Proof.
  revert l'. induction l as [|x l IH]; intros l'; simpl.
  - split; [intros [= <-]; constructor|by intros ->%Forall2_nil_inv_l].
  - split.
    + destruct (f x) as [y|e] eqn:Hx; [|done]. simpl.
      destruct (for_each f l) as [ys|e]; [|done]. simpl. intros [= <-].
      constructor; [done|]. by apply IH.
    + intros (y & ys & Hx & Hl & ->)%Forall2_cons_inv_l.
      apply IH in Hl. by rewrite Hx, Hl.
Qed.

Lemma for_each_raises {A B} (f : A -> result B) (l : list A) (e : exn) :
  for_each f l = Raise e <->
  ∃ before x after, l = before ++ x :: after ∧
    Forall (fun y => ∃ z, f y = Return z) before ∧ f x = Raise e.
Proof.
  split.
  - induction l as [|x l IH]; [done|]. simpl.
    destruct (f x) as [y|e'] eqn:Hx; simpl.
    + destruct (for_each f l) as [ys|e']; [done|]. simpl. intros [= ->].
      destruct (IH eq_refl) as (before & x' & after & -> & ? & ?).
      exists (x :: before), x', after. split_and!; [done| |done].
      constructor; eauto.
    + intros [= ->]. exists [], x, l. by split_and!.
  - intros (before & x & after & -> & Hbefore & Hx).
    induction Hbefore as [|y before [z Hy] _ IH]; simpl.
    + by rewrite Hx.
    + by rewrite Hy, IH.
Qed.

Section ParseShape.
Variable literal_eval : value -> result value.

Lemma parse_item_returns (item parsed_item : value) :
  parse_item literal_eval item = Return parsed_item <->
  parsed_as literal_eval item parsed_item.
Proof.
  unfold parse_item, parsed_as. destruct (literal_eval item) as [v|e]; simpl.
  - split; [intros [= ->]; by left|]. intros [[= ->]|(_ & e & [=] & _)]. done.
  - destruct (is_ValueError_or_SyntaxError e) eqn:He.
    + split; [intros [= <-]; right; eauto|]. by intros [[=]|(-> & _)].
    + split; [done|]. intros [[=]|(_ & e' & [= <-] & He')]. congruence.
Qed.

Lemma parse_item_raises (item : value) (e : exn) :
  parse_item literal_eval item = Raise e <->
  literal_eval item = Raise e ∧ is_ValueError_or_SyntaxError e = false.
Proof.
  unfold parse_item. destruct (literal_eval item) as [v|e']; simpl.
  - split; [done|]. by intros [[=] _].
  - destruct (is_ValueError_or_SyntaxError e') eqn:He.
    + split; [done|]. intros [[= ->] ?]. congruence.
    + split; [by intros [= ->]|]. by intros [[= ->] _].
Qed.

Lemma parse_data_returns (data parsed : list (list value)) :
  parse_data literal_eval data = Return parsed <->
  Forall2 (Forall2 (parsed_as literal_eval)) data parsed.
Proof.
  unfold parse_data. rewrite for_each_returns. split; intros Hall.
  - eapply Forall2_impl; [exact Hall|]. intros row parsed_row.
    unfold parse_row. rewrite for_each_returns. intros Hrow.
    eapply Forall2_impl; [exact Hrow|]. intros ??. by rewrite parse_item_returns.
  - eapply Forall2_impl; [exact Hall|]. intros row parsed_row Hrow.
    unfold parse_row. rewrite for_each_returns.
    eapply Forall2_impl; [exact Hrow|]. intros ??. by rewrite parse_item_returns.
Qed.

Lemma parse_data_raises (data : list (list value)) (e : exn) :
  parse_data literal_eval data = Raise e ->
  is_ValueError_or_SyntaxError e = false ∧
  ∃ row item, row ∈ data ∧ item ∈ row ∧ literal_eval item = Raise e.
Proof.
  unfold parse_data. rewrite for_each_raises.
  intros (before & row & after & -> & _ & Hrow). unfold parse_row in Hrow.
  apply for_each_raises in Hrow as (items & item & items' & -> & _ & Hitem).
  apply parse_item_raises in Hitem as [Hitem He]. split; [done|].
  exists (items ++ item :: items'), item. split_and!; [|..|done].
  - rewrite elem_of_app, elem_of_cons. eauto.
  - rewrite elem_of_app, elem_of_cons. eauto.
Qed.
End ParseShape.

Lemma literal_eval_core_scalar (v : value) :
  is_scalar v = true -> literal_eval_core v = Some (Raise ValueError).
Proof. by destruct v. Qed.

(** X10.  [parse_data] returns rows in which every item is either the value
    of its literal or, when the evaluation raised [ValueError] or
    [SyntaxError], the item itself; it raises exactly when the evaluation of
    some item raises an exception of another kind, which is then the
    exception of [parse_data]. *)
Theorem parse_data_outcome (literal_eval : value -> result value)
    (data : list (list value)) :
  (∀ parsed,
     parse_data literal_eval data = Return parsed <->
     Forall2 (Forall2 (parsed_as literal_eval)) data parsed) ∧
  (∀ e,
     parse_data literal_eval data = Raise e ->
     is_ValueError_or_SyntaxError e = false ∧
     ∃ row item, row ∈ data ∧ item ∈ row ∧ literal_eval item = Raise e).
Proof.
  split; [apply parse_data_returns|apply parse_data_raises].
Qed.

(** X11.  [parse_data] keeps the shape of the data: as many rows, and in
    each row as many items, as it was given. *)
Theorem parse_data_shape (literal_eval : value -> result value)
    (data parsed : list (list value)) :
  parse_data literal_eval data = Return parsed ->
  length parsed = length data ∧
  Forall2 (fun row parsed_row => length parsed_row = length row) data parsed.
Proof.
  rewrite parse_data_returns. intros Hall. split.
  - symmetry. by eapply Forall2_length.
  - eapply Forall2_impl; [exact Hall|]. intros row parsed_row Hrow. simpl.
    symmetry. by eapply Forall2_length.
Qed.

Lemma parse_data_shape_witness :
  length [[VStr "John"; VInt 30]; [VInt 7; VNone]] =
    length [[VStr "John"; VStr "30"]; [VStr "7"; VStr "None"]] ∧
  Forall2 (fun row parsed_row => length parsed_row = length row)
    [[VStr "John"; VStr "30"]; [VStr "7"; VStr "None"]]
    [[VStr "John"; VInt 30]; [VInt 7; VNone]].
Proof.
  apply (parse_data_shape core_evaluator
           [[VStr "John"; VStr "30"]; [VStr "7"; VStr "None"]]
           [[VStr "John"; VInt 30]; [VInt 7; VNone]]).
  vm_compute. reflexivity.
Defined.

(** X12.  Data that holds only [None], Booleans, numbers and byte strings
    passes through [parse_data] unchanged: [ast.literal_eval] raises
    [ValueError] on such a value, which is neither a string nor a syntax
    node, and the item is kept.  (A list, tuple, set or dictionary is left
    out: reporting it as a malformed node takes its [repr], which can fail
    with an exception that [parse_data] does not handle.) *)
Theorem parse_data_typed (literal_eval : value -> result value)
    (data : list (list value)) :
  extends_core literal_eval ->
  Forall (Forall (fun item => is_scalar item = true)) data ->
  parse_data literal_eval data = Return data.
Proof.
  intros Hcore Hdata. apply parse_data_returns.
  apply Forall_Forall2_diag. eapply Forall_impl; [exact Hdata|].
  intros row Hrow. apply Forall_Forall2_diag.
  eapply Forall_impl; [exact Hrow|]. intros item Hitem. simpl in *.
  right. split; [done|]. exists ValueError. split; [|done].
  by apply Hcore, literal_eval_core_scalar.
Qed.

Lemma parse_data_typed_witness :
  parse_data core_evaluator [[VInt 30; VNone]; [VBool true; VInt 2]] =
  Return [[VInt 30; VNone]; [VBool true; VInt 2]].
Proof.
  apply (parse_data_typed core_evaluator
           [[VInt 30; VNone]; [VBool true; VInt 2]] core_evaluator_extends).
  repeat constructor.
Defined.

(** ** Records with repeated column names *)

(** X13.  When a column name occurs more than once, the record of a row
    holds under it the value at the name's last position within the row;
    the values at its earlier positions are overwritten. *)
Theorem dict_row_last_wins (column_names : list string) (row : list value)
    (i : nat) (k : string) (v : value) :
  column_names !! i = Some k -> row !! i = Some v ->
  (∀ j, (i < j)%nat -> (j < length row)%nat -> column_names !! j ≠ Some k) ->
  dict_row column_names row !! k = Some v.
Proof.
  intros Hk Hv Hlast. unfold dict_row.
  assert (zip column_names row !! i = Some (k, v)) as Hi.
  { apply lookup_zip_with_Some. by exists k, v. }
  rewrite <- (take_drop_middle _ _ _ Hi), foldl_app. simpl.
  rewrite foldl_insert_notin; [by rewrite lookup_insert_eq|].
  intros (j & Hj)%list_elem_of_lookup_1.
  rewrite list_lookup_fmap, lookup_drop in Hj.
  destruct (zip column_names row !! (S i + j)%nat) as [[k' v']|] eqn:Hz;
    simplify_eq/=.
  apply lookup_zip_with_Some in Hz as (? & ? & [= <- <-] & Hk' & Hv').
  apply (Hlast (S i + j)%nat); [lia| |done].
  by apply lookup_lt_is_Some; eexists.
Qed.

Lemma dict_row_last_wins_witness :
  dict_row ["a"; "b"; "a"] [VInt 1; VInt 2; VInt 3; VInt 4] !! "a" =
  Some (VInt 3).
Proof.
  apply (dict_row_last_wins ["a"; "b"; "a"] [VInt 1; VInt 2; VInt 3; VInt 4]
           2 "a" (VInt 3)); [reflexivity|reflexivity|].
  intros [|[|[|[|j]]]] Hi Hj; simpl in *; first [lia | discriminate].
Defined.

(** ** [SchemaValidation.process] *)

Section Process.
Import df_bq_ingest.
Variable py : interpreter.
Variable literal_eval : value -> result value.
Variable schema : list field.

Lemma process_parsed (e : element) (parsed : list (list value)) :
  parse_data literal_eval (data e) = Return parsed ->
  ingest.process py literal_eval schema e =
    match (SchemaValidation.validate_data py parsed schema).2 with
    | Return _ => Return [Element (data e) (Some parsed)]
    | Raise (SchemaValidationException _) => Return []
    | Raise e' => Raise e'
    end.
Proof.
  intros Hparse. unfold ingest.process. rewrite Hparse. simpl.
  destruct (SchemaValidation.validate_data py parsed schema).2 as [[]|[]];
    done.
Qed.

(** X14.  Once the rows of an element are parsed, [process] yields the
    element, with the parsed rows under ['parsed_data'] and ['data'] as it
    was, exactly when every parsed row is valid.  Otherwise it yields
    nothing at all, whatever the number of valid rows, or lets an
    exception through: the [OverflowError] of a numeric conversion, or
    what [str] raises on a value of the parsed rows, in [validate_type] or
    while the message of the [SchemaValidationException] is formatted. *)
Theorem process_outcome (e : element) (parsed : list (list value)) :
  parse_data literal_eval (data e) = Return parsed ->
  (valid_rows (SchemaValidation.validate_type py) schema parsed <->
   ingest.process py literal_eval schema e =
     Return [Element (data e) (Some parsed)]) ∧
  (¬ valid_rows (SchemaValidation.validate_type py) schema parsed ->
   ingest.process py literal_eval schema e = Return [] ∨
   ∃ e', ingest.process py literal_eval schema e = Raise e' ∧
     ((e' = OverflowError ∧
       ∃ row v f, row ∈ parsed ∧ v ∈ row ∧ f ∈ schema ∧
                  overflows v (type f)) ∨
      (∃ row v, row ∈ parsed ∧ v ∈ row ∧ str py v = Raise e'))).
Proof.
  intros Hparse. rewrite (process_parsed e parsed Hparse).
  rewrite <- (validate_rows_ok (str py) (SchemaValidation.validate_type py)).
  fold (SchemaValidation.validate_data py parsed schema).
  destruct (SchemaValidation.validate_data py parsed schema).2 as [[]|e']
    eqn:Hvalid.
  - split; [done|]. by intros [].
  - split.
    + split; [done|]. by destruct e'.
    + intros _.
      destruct (is_SchemaValidationException e') eqn:He;
        [left; by destruct e'|].
      right. exists e'. split; [by destruct e'|].
      destruct (validate_rows_overflow py _ parsed schema e'
                  (otherwise_str_raises py) Hvalid)
        as [[why ->]|Hwhy]; done.
Qed.

(** X15.  [process] handles [SchemaValidationException] and nothing else:
    an exception that escapes it is never that one, and is the exception
    with which [parse_data] failed, the [OverflowError] of a numeric
    conversion, or what [str] raised on a value of the parsed rows. *)
Theorem process_raises (e : element) (e' : exn) :
  ingest.process py literal_eval schema e = Raise e' ->
  is_SchemaValidationException e' = false ∧
  (parse_data literal_eval (data e) = Raise e' ∨ e' = OverflowError ∨
   ∃ parsed row v,
     parse_data literal_eval (data e) = Return parsed ∧
     row ∈ parsed ∧ v ∈ row ∧ str py v = Raise e').
Proof.
  unfold ingest.process.
  destruct (parse_data literal_eval (data e)) as [parsed|e''] eqn:Hparse; simpl.
  - destruct (SchemaValidation.validate_data py parsed schema).2 as [[]|e'']
      eqn:Hvalid; simpl; [done|].
    destruct (is_SchemaValidationException e'') eqn:He; [done|].
    intros [= <-]. split; [done|].
    destruct (validate_rows_overflow py _ parsed schema e''
                (otherwise_str_raises py) Hvalid)
      as [[why ->]|[[-> _]|(row & v & ? & ? & ?)]]; [done|by eauto|].
    right. right. by exists parsed, row, v.
  - destruct (is_SchemaValidationException e'') eqn:He; [done|].
    intros [= <-]. eauto.
Qed.

Lemma process_returns (e : element) (out : list element) :
  ingest.process py literal_eval schema e = Return out ->
  out = [] ∨
  ∃ parsed, parse_data literal_eval (data e) = Return parsed ∧
            valid_rows (SchemaValidation.validate_type py) schema parsed ∧
            out = [Element (data e) (Some parsed)].
Proof.
  destruct (parse_data literal_eval (data e)) as [parsed|e''] eqn:Hparse.
  - rewrite (process_parsed e parsed Hparse).
    destruct (SchemaValidation.validate_data py parsed schema).2
      as [[]|[]] eqn:Hvalid; intros [= <-]; [|by left].
    right. exists parsed. split_and!; [done| |done].
    by apply (validate_rows_ok (str py)).
  - unfold ingest.process. rewrite Hparse. simpl.
    destruct (is_SchemaValidationException e''); [|done].
    intros [= <-]. by left.
Qed.

(** ** From an element to the records written *)

Lemma records_yielded (e : element) (parsed : list (list value)) :
  ingest.process py literal_eval schema e =
    Return [Element (data e) (Some parsed)] ->
  ingest.records py literal_eval schema e =
    Return (dict_row (ingest.column_names schema) <$> parsed).
Proof.
  intros Hprocess. unfold ingest.records. rewrite Hprocess. simpl.
  rewrite app_nil_r. f_equal. induction (_ <$> parsed) as [|r rs IH]; [done|].
  rewrite filter_cons_True by done. by rewrite IH.
Qed.

Lemma record_keys (row : list value) (k : string) :
  Forall2 (field_ok (SchemaValidation.validate_type py)) row schema ->
  is_Some (dict_row (ingest.column_names schema) row !! k) <->
  k ∈ ingest.column_names schema.
Proof.
  intros Hlen%Forall2_length. rewrite dict_row_keys, Hlen.
  unfold ingest.column_names.
  by rewrite <- (length_fmap name schema), firstn_all.
Qed.

(** X16.  What an element contributes to the write: nothing, or one
    record for each of its rows, made from the parsed row, whose keys are
    exactly the names of the schema's fields (validation has made sure that
    the row has the schema's length, so that no name and no value is
    dropped by [zip]). *)
Theorem records_outcome (e : element) (recs : list (gmap string value)) :
  ingest.records py literal_eval schema e = Return recs ->
  recs = [] ∨
  ∃ parsed, parse_data literal_eval (data e) = Return parsed ∧
    valid_rows (SchemaValidation.validate_type py) schema parsed ∧
    recs = dict_row (ingest.column_names schema) <$> parsed ∧
    length recs = length (data e) ∧
    Forall (fun rec => ∀ k, is_Some (rec !! k) <->
                            k ∈ ingest.column_names schema) recs.
Proof.
  intros Hrecs.
  destruct (ingest.process py literal_eval schema e) as [out|e'] eqn:Hprocess;
    [|by unfold ingest.records in Hrecs; rewrite Hprocess in Hrecs].
  destruct (process_returns e out Hprocess)
    as [->|(parsed & Hparse & Hvalid & ->)].
  - unfold ingest.records in Hrecs. rewrite Hprocess in Hrecs.
    simplify_eq/=. by left.
  - rewrite (records_yielded e parsed Hprocess) in Hrecs. simplify_eq.
    right. exists parsed. split_and!; try done.
    + rewrite length_fmap. apply parse_data_returns in Hparse.
      symmetry. by eapply Forall2_length.
    + apply Forall_fmap. eapply Forall_impl; [exact Hvalid|].
      intros row Hrow k. by apply record_keys.
Qed.
End Process.

Lemma process_outcome_witness :
  (valid_rows (df_bq_ingest.SchemaValidation.validate_type utc_host)
     person_schema [[VStr "Ann"; VInt 30; VNone]] <->
   ingest.process utc_host core_evaluator person_schema
     (df_bq_ingest.Element [[VStr "Ann"; VStr "30"; VStr "None"]] None) =
   Return [df_bq_ingest.Element [[VStr "Ann"; VStr "30"; VStr "None"]]
             (Some [[VStr "Ann"; VInt 30; VNone]])]) ∧
  (¬ valid_rows (df_bq_ingest.SchemaValidation.validate_type utc_host)
       person_schema [[VStr "Ann"; VInt 30; VNone]] ->
   ingest.process utc_host core_evaluator person_schema
     (df_bq_ingest.Element [[VStr "Ann"; VStr "30"; VStr "None"]] None) =
   Return [] ∨
   ∃ e', ingest.process utc_host core_evaluator person_schema
     (df_bq_ingest.Element [[VStr "Ann"; VStr "30"; VStr "None"]] None) =
     Raise e' ∧
     ((e' = OverflowError ∧
       ∃ row v f, row ∈ [[VStr "Ann"; VInt 30; VNone]] ∧ v ∈ row ∧
                  f ∈ person_schema ∧ overflows v (type f)) ∨
      (∃ row v, row ∈ [[VStr "Ann"; VInt 30; VNone]] ∧ v ∈ row ∧
                str utc_host v = Raise e'))).
Proof.
  apply (process_outcome utc_host core_evaluator person_schema
           (df_bq_ingest.Element [[VStr "Ann"; VStr "30"; VStr "None"]] None)
           [[VStr "Ann"; VInt 30; VNone]]).
  vm_compute. reflexivity.
Defined.

Lemma process_raises_witness :
  is_SchemaValidationException TypeError = false ∧
  (parse_data core_evaluator
     (df_bq_ingest.data (df_bq_ingest.Element [[VStr "{[1]: 2}"]] None)) =
   Raise TypeError ∨ TypeError = OverflowError ∨
   ∃ parsed row v,
     parse_data core_evaluator
       (df_bq_ingest.data (df_bq_ingest.Element [[VStr "{[1]: 2}"]] None)) =
     Return parsed ∧
     row ∈ parsed ∧ v ∈ row ∧ str utc_host v = Raise TypeError).
Proof.
  apply (process_raises utc_host core_evaluator person_schema
           (df_bq_ingest.Element [[VStr "{[1]: 2}"]] None) TypeError).
  vm_compute. reflexivity.
Defined.

Lemma records_outcome_witness :
  dict_row ["name"; "age"; "salary"] <$> [[VStr "Ann"; VInt 30; VNone]] = [] ∨
  ∃ parsed,
    parse_data core_evaluator
      (df_bq_ingest.data
         (df_bq_ingest.Element [[VStr "Ann"; VStr "30"; VStr "None"]] None)) =
    Return parsed ∧
    valid_rows (df_bq_ingest.SchemaValidation.validate_type utc_host)
      person_schema parsed ∧
    dict_row ["name"; "age"; "salary"] <$> [[VStr "Ann"; VInt 30; VNone]] =
      dict_row (ingest.column_names person_schema) <$> parsed ∧
    length (dict_row ["name"; "age"; "salary"] <$>
              [[VStr "Ann"; VInt 30; VNone]]) =
    length (df_bq_ingest.data
              (df_bq_ingest.Element [[VStr "Ann"; VStr "30"; VStr "None"]] None)) ∧
    Forall (fun rec => ∀ k, is_Some (rec !! k) <->
                            k ∈ ingest.column_names person_schema)
      (dict_row ["name"; "age"; "salary"] <$> [[VStr "Ann"; VInt 30; VNone]]).
Proof.
  apply (records_outcome utc_host core_evaluator person_schema
           (df_bq_ingest.Element [[VStr "Ann"; VStr "30"; VStr "None"]] None)
           (dict_row ["name"; "age"; "salary"] <$>
              [[VStr "Ann"; VInt 30; VNone]])).
  vm_compute. reflexivity.
Defined.

(** ** [create_bigquery_table] *)

Lemma table_schema_returns (schema : list field)
    (fields : list create_bq.SchemaField) :
  create_bq.table_schema schema = Return fields <->
  Forall2 (fun f sf => mode f = Some (create_bq.sf_mode sf) ∧
                       create_bq.sf_name sf = name f ∧
                       create_bq.sf_type sf = type f) schema fields.
Proof.
  unfold create_bq.table_schema. rewrite for_each_returns.
  split; intros Hall; (eapply Forall2_impl; [exact Hall|]);
    intros f [n t m]; simpl.
  - destruct (mode f); [|done]. by intros [= <- <- <-].
  - intros (-> & -> & ->). done.
Qed.

Lemma table_schema_raises (schema : list field) (e : exn) :
  create_bq.table_schema schema = Raise e <->
  e = KeyError ∧ ∃ f, f ∈ schema ∧ mode f = None.
Proof.
  unfold create_bq.table_schema. rewrite for_each_raises. split.
  - intros (before & f & after & -> & _ & Hf).
    destruct (mode f) eqn:Hmode; [done|]. simplify_eq. split; [done|].
    exists f. split; [|done]. rewrite elem_of_app, elem_of_cons. eauto.
  - intros [-> (f & Hin & Hmode)].
    induction schema as [|f' schema IH]; [by apply elem_of_nil in Hin|].
    destruct (mode f') as [m|] eqn:Hmode'.
    + apply elem_of_cons in Hin as [->|Hin]; [congruence|].
      destruct (IH Hin) as (before & x & after & -> & Hbefore & Hx).
      exists (f' :: before), x, after. split_and!; [done| |done].
      constructor; [|done]. rewrite Hmode'. eauto.
    + exists [], f', schema. split_and!; [done|constructor|by rewrite Hmode'].
Qed.

(** X17.  The schema loop of [create_bigquery_table] needs a mode in every
    field: it raises [KeyError], and nothing else, exactly when some field
    has none (where [validate_data] takes such a field as NULLABLE), and
    otherwise it returns one [SchemaField] for each field, in order, with
    the field's name, type and mode. *)
Theorem table_schema_outcome (schema : list field) :
  (∀ fields,
     create_bq.table_schema schema = Return fields <->
     Forall2 (fun f sf => mode f = Some (create_bq.sf_mode sf) ∧
                          create_bq.sf_name sf = name f ∧
                          create_bq.sf_type sf = type f) schema fields) ∧
  (∀ e,
     create_bq.table_schema schema = Raise e <->
     e = KeyError ∧ ∃ f, f ∈ schema ∧ mode f = None) ∧
  (∀ validate_type f,
     mode f = None -> field_ok validate_type VNone f).
Proof.
  split_and!.
  - apply table_schema_returns.
  - apply table_schema_raises.
  - intros validate_type f Hmode. unfold field_ok, get_mode. by rewrite Hmode.
Qed.

(** ** The stages composed *)

(** X18.  [FormatToBqRow.process] raises [KeyError] on an element without
    ['parsed_data'], but never within the pipeline: every element that
    [SchemaValidation.process] yields has the key, so the records of an
    element fail exactly when its validation stage fails, with the same
    exception. *)
Theorem records_raises (py : interpreter)
    (literal_eval : value -> result value) (schema : list field)
    (e : df_bq_ingest.element) (e' : exn) :
  (∀ column_names rows,
     df_bq_ingest.FormatToBqRow.process column_names
       (df_bq_ingest.Element rows None) = Raise KeyError) ∧
  (ingest.records py literal_eval schema e = Raise e' <->
   ingest.process py literal_eval schema e = Raise e').
Proof.
  split; [done|]. unfold ingest.records.
  destruct (ingest.process py literal_eval schema e) as [out|e''] eqn:Hprocess;
    [|simpl; split; by intros [= ->]].
  destruct (process_returns py literal_eval schema e out Hprocess)
    as [->|(parsed & _ & _ & ->)]; simpl; by split.
Qed.

(** X19.  Empty input: [validate_data] passes on data without rows,
    whatever the schema, and with a schema without fields it passes exactly
    when every row is empty. *)
Theorem validate_data_empty (py : interpreter) (data : list (list value))
    (schema : list field) :
  (schema_val.validate_data py [] schema).2 = Return () ∧
  (df_bq_ingest.SchemaValidation.validate_data py [] schema).2 = Return () ∧
  ((schema_val.validate_data py data []).2 = Return () <->
   Forall (fun row => row = []) data) ∧
  ((df_bq_ingest.SchemaValidation.validate_data py data []).2 = Return () <->
   Forall (fun row => row = []) data).
Proof.
  split_and!; [done|done|..];
    unfold schema_val.validate_data, df_bq_ingest.SchemaValidation.validate_data;
    rewrite validate_rows_ok; unfold valid_rows; apply Forall_iff; intros row;
    (split; [by intros ->%Forall2_nil_inv_r|intros ->; constructor]).
Qed.
